(** * The credential cipher of the socials API

    A shallow embedding of [helpers/cryptoHelpers.js]: the start-up check of
    [ENCRYPTION_KEY], [encrypt] and [decrypt], together with the parts of the
    JavaScript and Node.js run time these three lean on: UTF-16 strings,
    [String.prototype.split], [Buffer.from], base64 and UTF-8 transcoding,
    [crypto.randomBytes], and the [aes-256-cbc] cipher objects returned by
    [crypto.createCipheriv] and [crypto.createDecipheriv]. *)

From Stdlib Require Import Ascii String.
From Stdlib Require Import List NArith ZArith PeanoNat Lia Bool Ring.
From Stdlib Require Import Init.Byte Strings.Byte.
Import ListNotations.

Set Implicit Arguments.

(** ** Values *)

(** A [Buffer] is a list of octets. *)
Definition buffer := list byte.

(** A JavaScript string is a sequence of UTF-16 code units (each below
    [0x10000]); [s.length] is the length of the list. *)
Definition jsstring := list N.

(** An ASCII string literal as a JavaScript string. *)
Definition js (s : string) : jsstring := map N_of_ascii (list_ascii_of_string s).

(** The code unit of [':']. *)
Definition colon : N := 58.

Definition byte_of_N (n : N) : byte :=
  match Byte.of_N n with
  | Some b => b
  | None => x00
  end.

(** Cut a list into pieces of [n] elements; the last piece may be shorter. *)
Fixpoint chunks_aux (A : Type) (fuel n : nat) (l : list A) : list (list A) :=
  match fuel with
  | O => []
  | S fuel' =>
      match l with
      | [] => []
      | _ :: _ => firstn n l :: chunks_aux fuel' n (skipn n l)
      end
  end.

Definition chunks (A : Type) (n : nat) (l : list A) : list (list A) :=
  chunks_aux (length l) n l.

(** ** AES-256 (FIPS 197), the block cipher behind ['aes-256-cbc'] *)

Module AES.

(** Addition in GF(2^8): bitwise exclusive or. *)
Definition bxor (a b : byte) : byte :=
  let '(a0, (a1, (a2, (a3, (a4, (a5, (a6, a7))))))) := Byte.to_bits a in
  let '(b0, (b1, (b2, (b3, (b4, (b5, (b6, b7))))))) := Byte.to_bits b in
  Byte.of_bits
    (xorb a0 b0, (xorb a1 b1, (xorb a2 b2, (xorb a3 b3,
    (xorb a4 b4, (xorb a5 b5, (xorb a6 b6, xorb a7 b7))))))).

(** Multiplication by [x] modulo [x^8 + x^4 + x^3 + x + 1]. *)
Definition xtime (a : byte) : byte :=
  let '(a0, (a1, (a2, (a3, (a4, (a5, (a6, a7))))))) := Byte.to_bits a in
  Byte.of_bits
    (a7, (xorb a0 a7, (a1, (xorb a2 a7, (xorb a3 a7, (a4, (a5, a6))))))).

Definition mul2 (a : byte) : byte := xtime a.
Definition mul3 (a : byte) : byte := bxor (xtime a) a.
Definition mul9 (a : byte) : byte := bxor (xtime (xtime (xtime a))) a.
Definition mul11 (a : byte) : byte :=
  bxor (xtime (xtime (xtime a))) (bxor (xtime a) a).
Definition mul13 (a : byte) : byte :=
  bxor (xtime (xtime (xtime a))) (bxor (xtime (xtime a)) a).
Definition mul14 (a : byte) : byte :=
  bxor (xtime (xtime (xtime a))) (bxor (xtime (xtime a)) (xtime a)).

Definition sbox_table : list byte :=
  [
   x63; x7c; x77; x7b; xf2; x6b; x6f; xc5; x30; x01; x67; x2b; xfe; xd7; xab; x76;
   xca; x82; xc9; x7d; xfa; x59; x47; xf0; xad; xd4; xa2; xaf; x9c; xa4; x72; xc0;
   xb7; xfd; x93; x26; x36; x3f; xf7; xcc; x34; xa5; xe5; xf1; x71; xd8; x31; x15;
   x04; xc7; x23; xc3; x18; x96; x05; x9a; x07; x12; x80; xe2; xeb; x27; xb2; x75;
   x09; x83; x2c; x1a; x1b; x6e; x5a; xa0; x52; x3b; xd6; xb3; x29; xe3; x2f; x84;
   x53; xd1; x00; xed; x20; xfc; xb1; x5b; x6a; xcb; xbe; x39; x4a; x4c; x58; xcf;
   xd0; xef; xaa; xfb; x43; x4d; x33; x85; x45; xf9; x02; x7f; x50; x3c; x9f; xa8;
   x51; xa3; x40; x8f; x92; x9d; x38; xf5; xbc; xb6; xda; x21; x10; xff; xf3; xd2;
   xcd; x0c; x13; xec; x5f; x97; x44; x17; xc4; xa7; x7e; x3d; x64; x5d; x19; x73;
   x60; x81; x4f; xdc; x22; x2a; x90; x88; x46; xee; xb8; x14; xde; x5e; x0b; xdb;
   xe0; x32; x3a; x0a; x49; x06; x24; x5c; xc2; xd3; xac; x62; x91; x95; xe4; x79;
   xe7; xc8; x37; x6d; x8d; xd5; x4e; xa9; x6c; x56; xf4; xea; x65; x7a; xae; x08;
   xba; x78; x25; x2e; x1c; xa6; xb4; xc6; xe8; xdd; x74; x1f; x4b; xbd; x8b; x8a;
   x70; x3e; xb5; x66; x48; x03; xf6; x0e; x61; x35; x57; xb9; x86; xc1; x1d; x9e;
   xe1; xf8; x98; x11; x69; xd9; x8e; x94; x9b; x1e; x87; xe9; xce; x55; x28; xdf;
   x8c; xa1; x89; x0d; xbf; xe6; x42; x68; x41; x99; x2d; x0f; xb0; x54; xbb; x16
  ].

Definition inv_sbox_table : list byte :=
  [
   x52; x09; x6a; xd5; x30; x36; xa5; x38; xbf; x40; xa3; x9e; x81; xf3; xd7; xfb;
   x7c; xe3; x39; x82; x9b; x2f; xff; x87; x34; x8e; x43; x44; xc4; xde; xe9; xcb;
   x54; x7b; x94; x32; xa6; xc2; x23; x3d; xee; x4c; x95; x0b; x42; xfa; xc3; x4e;
   x08; x2e; xa1; x66; x28; xd9; x24; xb2; x76; x5b; xa2; x49; x6d; x8b; xd1; x25;
   x72; xf8; xf6; x64; x86; x68; x98; x16; xd4; xa4; x5c; xcc; x5d; x65; xb6; x92;
   x6c; x70; x48; x50; xfd; xed; xb9; xda; x5e; x15; x46; x57; xa7; x8d; x9d; x84;
   x90; xd8; xab; x00; x8c; xbc; xd3; x0a; xf7; xe4; x58; x05; xb8; xb3; x45; x06;
   xd0; x2c; x1e; x8f; xca; x3f; x0f; x02; xc1; xaf; xbd; x03; x01; x13; x8a; x6b;
   x3a; x91; x11; x41; x4f; x67; xdc; xea; x97; xf2; xcf; xce; xf0; xb4; xe6; x73;
   x96; xac; x74; x22; xe7; xad; x35; x85; xe2; xf9; x37; xe8; x1c; x75; xdf; x6e;
   x47; xf1; x1a; x71; x1d; x29; xc5; x89; x6f; xb7; x62; x0e; xaa; x18; xbe; x1b;
   xfc; x56; x3e; x4b; xc6; xd2; x79; x20; x9a; xdb; xc0; xfe; x78; xcd; x5a; xf4;
   x1f; xdd; xa8; x33; x88; x07; xc7; x31; xb1; x12; x10; x59; x27; x80; xec; x5f;
   x60; x51; x7f; xa9; x19; xb5; x4a; x0d; x2d; xe5; x7a; x9f; x93; xc9; x9c; xef;
   xa0; xe0; x3b; x4d; xae; x2a; xf5; xb0; xc8; xeb; xbb; x3c; x83; x53; x99; x61;
   x17; x2b; x04; x7e; xba; x77; xd6; x26; xe1; x69; x14; x63; x55; x21; x0c; x7d
  ].

Definition sbox (b : byte) : byte := nth (Byte.to_nat b) sbox_table x00.
Definition inv_sbox (b : byte) : byte := nth (Byte.to_nat b) inv_sbox_table x00.

(** Byte-wise exclusive or of [s] with [k]; the result is as long as [s]
    (a short [k] counts as padded with zeros, every caller passes buffers
    of equal length). *)
Fixpoint xor_bytes (s k : buffer) : buffer :=
  match s with
  | [] => []
  | x :: s' => bxor x (hd x00 k) :: xor_bytes s' (tl k)
  end.

Definition sub_bytes (s : buffer) : buffer := map sbox s.
Definition inv_sub_bytes (s : buffer) : buffer := map inv_sbox s.

(** The state is kept in input order: byte [r + 4c] is row [r], column [c]. *)
Definition shift_rows (s : buffer) : buffer :=
  match s with
  | [s0; s1; s2; s3; s4; s5; s6; s7; s8; s9; s10; s11; s12; s13; s14; s15] =>
      [s0; s5; s10; s15; s4; s9; s14; s3; s8; s13; s2; s7; s12; s1; s6; s11]
  | _ => s
  end.

Definition inv_shift_rows (s : buffer) : buffer :=
  match s with
  | [s0; s1; s2; s3; s4; s5; s6; s7; s8; s9; s10; s11; s12; s13; s14; s15] =>
      [s0; s13; s10; s7; s4; s1; s14; s11; s8; s5; s2; s15; s12; s9; s6; s3]
  | _ => s
  end.

Definition mix_column (a0 a1 a2 a3 : byte) : buffer :=
  [ bxor (mul2 a0) (bxor (mul3 a1) (bxor a2 a3));
    bxor a0 (bxor (mul2 a1) (bxor (mul3 a2) a3));
    bxor a0 (bxor a1 (bxor (mul2 a2) (mul3 a3)));
    bxor (mul3 a0) (bxor a1 (bxor a2 (mul2 a3))) ].

Definition inv_mix_column (a0 a1 a2 a3 : byte) : buffer :=
  [ bxor (mul14 a0) (bxor (mul11 a1) (bxor (mul13 a2) (mul9 a3)));
    bxor (mul9 a0) (bxor (mul14 a1) (bxor (mul11 a2) (mul13 a3)));
    bxor (mul13 a0) (bxor (mul9 a1) (bxor (mul14 a2) (mul11 a3)));
    bxor (mul11 a0) (bxor (mul13 a1) (bxor (mul9 a2) (mul14 a3))) ].

Fixpoint mix_columns (s : buffer) : buffer :=
  match s with
  | a0 :: a1 :: a2 :: a3 :: s' => mix_column a0 a1 a2 a3 ++ mix_columns s'
  | _ => s
  end.

Fixpoint inv_mix_columns (s : buffer) : buffer :=
  match s with
  | a0 :: a1 :: a2 :: a3 :: s' => inv_mix_column a0 a1 a2 a3 ++ inv_mix_columns s'
  | _ => s
  end.

(** *** Key schedule *)

Definition rot_word (w : buffer) : buffer :=
  match w with
  | [] => []
  | a :: w' => w' ++ [a]
  end.

Definition sub_word (w : buffer) : buffer := map sbox w.

Definition rcon : list byte := [x01; x02; x04; x08; x10; x20; x40].

(** [expand_words fuel i ws] computes the words [w_i], [w_(i+1)], ... of the
    schedule for an 8-word key; [ws] holds the words computed so far, the
    newest first. *)
Fixpoint expand_words (fuel i : nat) (ws : list buffer) : list buffer :=
  match fuel with
  | O => ws
  | S fuel' =>
      let temp := hd [] ws in
      let temp' :=
        if i mod 8 =? 0 then
          xor_bytes (sub_word (rot_word temp))
                    [nth (i / 8 - 1) rcon x00; x00; x00; x00]
        else if i mod 8 =? 4 then sub_word temp
        else temp in
      expand_words fuel' (S i) (xor_bytes (nth 7 ws []) temp' :: ws)
  end.

(** The fifteen round keys of a 32-byte key. *)
Definition key_expansion (key : buffer) : list buffer :=
  chunks 16 (concat (rev (expand_words 52 8 (rev (chunks 4 key))))).

(** *** Cipher and inverse cipher *)

Definition round (rk s : buffer) : buffer :=
  xor_bytes (mix_columns (shift_rows (sub_bytes s))) rk.

Definition final_round (rk s : buffer) : buffer :=
  xor_bytes (shift_rows (sub_bytes s)) rk.

Definition inv_round (rk s : buffer) : buffer :=
  inv_sub_bytes (inv_shift_rows (inv_mix_columns (xor_bytes s rk))).

Definition inv_final_round (rk s : buffer) : buffer :=
  inv_sub_bytes (inv_shift_rows (xor_bytes s rk)).

Fixpoint rounds (rks : list buffer) (s : buffer) : buffer :=
  match rks with
  | [] => s
  | [rk] => final_round rk s
  | rk :: rks' => rounds rks' (round rk s)
  end.

Fixpoint inv_rounds (rks : list buffer) (s : buffer) : buffer :=
  match rks with
  | [] => s
  | [rk] => inv_final_round rk s
  | rk :: rks' => inv_round rk (inv_rounds rks' s)
  end.

Definition encrypt_block (rks : list buffer) (b : buffer) : buffer :=
  rounds (tl rks) (xor_bytes b (hd [] rks)).

Definition decrypt_block (rks : list buffer) (b : buffer) : buffer :=
  xor_bytes (inv_rounds (tl rks) b) (hd [] rks).

End AES.

(** ** UTF-8, as [Buffer.from(s)] / [Buffer.from(s, 'utf8')] write it and
    as [StringDecoder('utf8')] reads it *)

Module Utf8.

Definition replacement : N := 0xFFFD.

Definition is_high_surrogate (u : N) : bool := (0xD800 <=? u)%N && (u <? 0xDC00)%N.
Definition is_low_surrogate (u : N) : bool := (0xDC00 <=? u)%N && (u <? 0xE000)%N.

(** [String.prototype.isWellFormed]: no lone surrogate. *)
Fixpoint isWellFormed (s : jsstring) : bool :=
  match s with
  | [] => true
  | u :: s' =>
      if is_high_surrogate u then
        match s' with
        | v :: s'' => is_low_surrogate v && isWellFormed s''
        | [] => false
        end
      else negb (is_low_surrogate u) && (u <? 0x10000)%N && isWellFormed s'
  end.

Definition encode_code_point (cp : N) : buffer :=
  if (cp <? 0x80)%N then [byte_of_N cp]
  else if (cp <? 0x800)%N then
    [byte_of_N (0xC0 + cp / 64); byte_of_N (0x80 + cp mod 64)]
  else if (cp <? 0x10000)%N then
    [byte_of_N (0xE0 + cp / 4096); byte_of_N (0x80 + (cp / 64) mod 64);
     byte_of_N (0x80 + cp mod 64)]
  else
    [byte_of_N (0xF0 + cp / 262144); byte_of_N (0x80 + (cp / 4096) mod 64);
     byte_of_N (0x80 + (cp / 64) mod 64); byte_of_N (0x80 + cp mod 64)].

(** A surrogate pair is one code point; a lone surrogate is written as
    U+FFFD. *)
Fixpoint encode (s : jsstring) : buffer :=
  match s with
  | [] => []
  | u :: s' =>
      if is_high_surrogate u then
        match s' with
        | v :: s'' =>
            if is_low_surrogate v then
              encode_code_point (0x10000 + (u - 0xD800) * 1024 + (v - 0xDC00))
                ++ encode s''
            else encode_code_point replacement ++ encode s'
        | [] => encode_code_point replacement
        end
      else if is_low_surrogate u then encode_code_point replacement ++ encode s'
      else encode_code_point u ++ encode s'
  end.

(** The decoder is the state machine of the Encoding standard: the code
    point under construction, the number of continuation bytes still
    expected, and the range allowed for the next byte. *)
Record decoder : Type := Decoder {
  code_point : N;
  needed : N;
  lower : N;
  upper : N
}.

Definition init : decoder := Decoder 0 0 0x80 0xBF.

Definition units_of_code_point (cp : N) : jsstring :=
  if (cp <? 0x10000)%N then [cp]
  else [(0xD800 + (cp - 0x10000) / 1024)%N; (0xDC00 + (cp - 0x10000) mod 1024)%N].

(** A byte met while no sequence is open. *)
Definition start (b : N) : decoder * jsstring :=
  if (b <? 0x80)%N then (init, [b])
  else if (0xC2 <=? b)%N && (b <=? 0xDF)%N then
    (Decoder (b - 0xC0) 1 0x80 0xBF, [])
  else if (0xE0 <=? b)%N && (b <=? 0xEF)%N then
    (Decoder (b - 0xE0) 2
       (if (b =? 0xE0)%N then 0xA0 else 0x80)
       (if (b =? 0xED)%N then 0x9F else 0xBF), [])
  else if (0xF0 <=? b)%N && (b <=? 0xF4)%N then
    (Decoder (b - 0xF0) 3
       (if (b =? 0xF0)%N then 0x90 else 0x80)
       (if (b =? 0xF4)%N then 0x8F else 0xBF), [])
  else (init, [replacement]).

Definition step (d : decoder) (b : byte) : decoder * jsstring :=
  let n := Byte.to_N b in
  if (needed d =? 0)%N then start n
  else if (lower d <=? n)%N && (n <=? upper d)%N then
    let cp := (code_point d * 64 + (n - 0x80))%N in
    if (needed d =? 1)%N then (init, units_of_code_point cp)
    else (Decoder cp (needed d - 1) 0x80 0xBF, [])
  else
    let (d', out) := start n in (d', replacement :: out).

(** [decoder.write(buf)] *)
Fixpoint write (d : decoder) (buf : buffer) : decoder * jsstring :=
  match buf with
  | [] => (d, [])
  | b :: buf' =>
      let (d1, out1) := step d b in
      let (d2, out2) := write d1 buf' in
      (d2, out1 ++ out2)
  end.

(** What [decoder.end()] adds when a sequence is left open. *)
Definition flush (d : decoder) : jsstring :=
  if (needed d =? 0)%N then [] else [replacement].

(** [decoder.end(buf)] *)
Definition finish (d : decoder) (buf : buffer) : jsstring :=
  let (d', out) := write d buf in out ++ flush d'.

(** [buf.toString('utf8')] *)
Definition decode (buf : buffer) : jsstring := finish init buf.

End Utf8.

(** ** Base64, as [buf.toString('base64')] writes it and as
    [Buffer.from(s, 'base64')] reads it *)

Module Base64.

Definition alphabet : jsstring :=
  js "ABCDEFGHIJKLMNOPQRSTUVWXYZabcdefghijklmnopqrstuvwxyz0123456789+/".

Definition pad_char : N := 61.

Definition char_of_sextet (v : N) : N := nth (N.to_nat v) alphabet 0%N.

(** The decoder looks at a UTF-16 code unit through a cast to eight bits
    ([static_cast<uint8_t>]): only its low byte counts, so that U+0141 is
    read as ['A'] and U+013D as ['=']. *)
Definition uint8 (c : N) : N := (c mod 256)%N.

(** The decoding table, [unbase64(uint8_t x)]; it also knows the URL-safe
    ['-'] and ['_']. *)
Definition unbase64 (c : N) : option N :=
  let x := uint8 c in
  if (65 <=? x)%N && (x <=? 90)%N then Some (x - 65)%N
  else if (97 <=? x)%N && (x <=? 122)%N then Some (x - 71)%N
  else if (48 <=? x)%N && (x <=? 57)%N then Some (x + 4)%N
  else if (x =? 43)%N || (x =? 45)%N then Some 62%N
  else if (x =? 47)%N || (x =? 95)%N then Some 63%N
  else None.

Fixpoint encode (buf : buffer) : jsstring :=
  match buf with
  | [] => []
  | [a] =>
      let a := Byte.to_N a in
      [char_of_sextet (a / 4); char_of_sextet ((a mod 4) * 16);
       pad_char; pad_char]
  | [a; b] =>
      let a := Byte.to_N a in
      let b := Byte.to_N b in
      [char_of_sextet (a / 4); char_of_sextet ((a mod 4) * 16 + b / 16);
       char_of_sextet ((b mod 16) * 4); pad_char]
  | a :: b :: c :: buf' =>
      let a := Byte.to_N a in
      let b := Byte.to_N b in
      let c := Byte.to_N c in
      char_of_sextet (a / 4) :: char_of_sextet ((a mod 4) * 16 + b / 16)
        :: char_of_sextet ((b mod 16) * 4 + c / 64) :: char_of_sextet (c mod 64)
        :: encode buf'
  end.

(** The decoder is forgiving: it stops at the first code unit whose low
    byte is ['='] and skips every other one whose low byte is not in the
    table. *)
Fixpoint sextets (s : jsstring) : list N :=
  match s with
  | [] => []
  | c :: s' =>
      match unbase64 c with
      | Some v => v :: sextets s'
      | None => if (uint8 c =? pad_char)%N then [] else sextets s'
      end
  end.

Fixpoint pack (vs : list N) : buffer :=
  match vs with
  | v1 :: v2 :: v3 :: v4 :: vs' =>
      byte_of_N (v1 * 4 + v2 / 16) :: byte_of_N ((v2 mod 16) * 16 + v3 / 4)
        :: byte_of_N ((v3 mod 4) * 64 + v4) :: pack vs'
  | [v1; v2; v3] =>
      [byte_of_N (v1 * 4 + v2 / 16); byte_of_N ((v2 mod 16) * 16 + v3 / 4)]
  | [v1; v2] => [byte_of_N (v1 * 4 + v2 / 16)]
  | _ => []
  end.

Definition decode (s : jsstring) : buffer := pack (sextets s).

(** [StringDecoder('base64')] keeps the bytes that do not yet fill a group
    of three. *)
Definition write (held buf : buffer) : buffer * jsstring :=
  let all := held ++ buf in
  let n := (length all - length all mod 3)%nat in
  (skipn n all, encode (firstn n all)).

Definition finish (held buf : buffer) : jsstring :=
  let (held', out) := write held buf in out ++ encode held'.

End Base64.

(** ** [Buffer] *)

Module Buffer.

(** [Buffer.from(s)]: the UTF-8 bytes of [s]. *)
Definition from (s : jsstring) : buffer := Utf8.encode s.

(** [Buffer.from(s, 'base64')] *)
Definition from_base64 (s : jsstring) : buffer := Base64.decode s.

(** [buf.toString('base64')] *)
Definition toString_base64 (buf : buffer) : jsstring := Base64.encode buf.

End Buffer.

(** ** Exceptions, and the one effect: [crypto.randomBytes] *)

Inductive error : Type :=
| ConfigError                        (* Error('ENCRYPTION_KEY must be 32 characters long') *)
| ERR_INVALID_ARG_TYPE               (* TypeError: the "data" argument must be of type string ... *)
| ERR_CRYPTO_UNKNOWN_CIPHER          (* TypeError: Unknown cipher *)
| ERR_CRYPTO_INVALID_IV              (* TypeError: Invalid initialization vector *)
| ERR_CRYPTO_INVALID_KEYLEN          (* RangeError: Invalid key length *)
| ERR_OSSL_WRONG_FINAL_BLOCK_LENGTH  (* Error: ...:wrong final block length *)
| ERR_OSSL_BAD_DECRYPT.              (* Error: ...:bad decrypt *)

Inductive result (A : Type) : Type :=
| Ok (a : A)
| Throw (e : error).

Arguments Throw {A} e.

Definition is_ok (A : Type) (r : result A) : bool :=
  match r with
  | Ok _ => true
  | Throw _ => false
  end.

(** The random source of the process: the bytes it will hand out, in order. *)
Definition entropy := nat -> byte.

(** A computation may draw random bytes and may throw. *)
Definition M (A : Type) : Type := entropy -> result A * entropy.

Definition ret (A : Type) (a : A) : M A := fun w => (Ok a, w).

Definition throw (A : Type) (e : error) : M A := fun w => (Throw e, w).

Definition bind (A B : Type) (m : M A) (k : A -> M B) : M B :=
  fun w =>
    match m w with
    | (Ok a, w') => k a w'
    | (Throw e, w') => (Throw e, w')
    end.

Definition lift (A : Type) (r : result A) : M A := fun w => (r, w).

Notation "x <- m ;; k" := (bind m (fun x => k))
  (at level 61, m at next level, right associativity).
Notation "' p <- m ;; k" := (bind m (fun x => let p := x in k))
  (at level 61, p pattern, m at next level, right associativity).

(** The source once [n] bytes have been drawn. *)
Definition advance (n : nat) (w : entropy) : entropy := fun i => w (n + i)%nat.

(** [crypto.randomBytes(n)] *)
Definition randomBytes (n : nat) : M buffer :=
  fun w => (Ok (map w (seq 0 n)), advance n w).

(** ** OpenSSL's [EVP] layer for [aes-256-cbc], padding enabled *)

Module Evp.

Record ctx : Type := Ctx {
  round_keys : list buffer;
  chain : buffer;           (* the IV, then the last ciphertext block *)
  buf : buffer;             (* input that does not yet fill a block *)
  final : option buffer     (* decryption: the block held back for [final] *)
}.

Definition init (key iv : buffer) : ctx :=
  Ctx (AES.key_expansion key) iv [] None.

Fixpoint cbc_encrypt_blocks (rks : list buffer) (iv : buffer)
    (blocks : list buffer) : buffer * buffer :=
  match blocks with
  | [] => ([], iv)
  | p :: blocks' =>
      let c := AES.encrypt_block rks (AES.xor_bytes p iv) in
      let (out, iv') := cbc_encrypt_blocks rks c blocks' in
      (c ++ out, iv')
  end.

Fixpoint cbc_decrypt_blocks (rks : list buffer) (iv : buffer)
    (blocks : list buffer) : buffer * buffer :=
  match blocks with
  | [] => ([], iv)
  | c :: blocks' =>
      let p := AES.xor_bytes (AES.decrypt_block rks c) iv in
      let (out, iv') := cbc_decrypt_blocks rks c blocks' in
      (p ++ out, iv')
  end.

(** The whole blocks of [data], and what is left over. *)
Definition whole_blocks (data : buffer) : buffer :=
  firstn (16 * (length data / 16)) data.

Definition partial_block (data : buffer) : buffer :=
  skipn (16 * (length data / 16)) data.

(** [EVP_EncryptUpdate]: encrypts every complete block. *)
Definition EncryptUpdate (c : ctx) (data : buffer) : buffer * ctx :=
  let all := buf c ++ data in
  let (out, iv') :=
    cbc_encrypt_blocks (round_keys c) (chain c) (chunks 16 (whole_blocks all)) in
  (out, Ctx (round_keys c) iv' (partial_block all) None).

(** [EVP_EncryptFinal_ex]: pads what is left to one block and encrypts it. *)
Definition EncryptFinal (c : ctx) : buffer :=
  let n := (16 - length (buf c))%nat in
  let last := buf c ++ repeat (byte_of_N (N.of_nat n)) n in
  fst (cbc_encrypt_blocks (round_keys c) (chain c) [last]).

(** [EVP_DecryptUpdate]: decrypts every complete block, but when the input
    ends on a block boundary the last decrypted block is kept for [final]. *)
Definition DecryptUpdate (c : ctx) (data : buffer) : buffer * ctx :=
  match data with
  | [] => ([], c)
  | _ :: _ =>
      let all := buf c ++ data in
      let (dec, iv') :=
        cbc_decrypt_blocks (round_keys c) (chain c) (chunks 16 (whole_blocks all)) in
      let held := match final c with Some f => f | None => [] end in
      match partial_block all with
      | [] =>
          (held ++ firstn (length dec - 16) dec,
           Ctx (round_keys c) iv' [] (Some (skipn (length dec - 16) dec)))
      | rest => (held ++ dec, Ctx (round_keys c) iv' rest None)
      end
  end.

(** The padding check of [EVP_DecryptFinal_ex] on the last block. *)
Definition unpad_block (blk : buffer) : option buffer :=
  let n := Byte.to_nat (last blk x00) in
  if (n =? 0)%nat || (16 <? n)%nat then None
  else if forallb (Byte.eqb (last blk x00)) (skipn (16 - n) blk)
  then Some (firstn (16 - n) blk)
  else None.

Definition DecryptFinal (c : ctx) : result buffer :=
  match buf c, final c with
  | [], Some f =>
      match unpad_block f with
      | Some out => Ok out
      | None => Throw ERR_OSSL_BAD_DECRYPT
      end
  | _, _ => Throw ERR_OSSL_WRONG_FINAL_BLOCK_LENGTH
  end.

End Evp.

(** ** Node's [crypto] module, for the algorithm ['aes-256-cbc'] *)

Module Crypto.

(** A cipher object: the OpenSSL context, and the [StringDecoder] behind the
    output encoding given to [update] and [final]. *)
Record Cipheriv : Type := MkCipheriv {
  cipher_ctx : Evp.ctx;
  cipher_decoder : buffer
}.

Record Decipheriv : Type := MkDecipheriv {
  decipher_ctx : Evp.ctx;
  decipher_decoder : Utf8.decoder
}.

(** What both constructors check: the name of the cipher (this model knows
    ['aes-256-cbc'] only), then the length of the IV, then the length of
    the key. *)
Definition check_key_iv (algorithm : string) (key iv : buffer) : result Evp.ctx :=
  if negb (String.eqb algorithm "aes-256-cbc") then Throw ERR_CRYPTO_UNKNOWN_CIPHER
  else if negb (length iv =? 16)%nat then Throw ERR_CRYPTO_INVALID_IV
  else if negb (length key =? 32)%nat then Throw ERR_CRYPTO_INVALID_KEYLEN
  else Ok (Evp.init key iv).

(** [crypto.createCipheriv(algorithm, key, iv)] *)
Definition createCipheriv (algorithm : string) (key iv : buffer) : result Cipheriv :=
  match check_key_iv algorithm key iv with
  | Ok c => Ok (MkCipheriv c [])
  | Throw e => Throw e
  end.

(** [crypto.createDecipheriv(algorithm, key, iv)] *)
Definition createDecipheriv (algorithm : string) (key iv : buffer) : result Decipheriv :=
  match check_key_iv algorithm key iv with
  | Ok c => Ok (MkDecipheriv c Utf8.init)
  | Throw e => Throw e
  end.

(** [cipher.update(data, 'utf8', 'base64')] *)
Definition cipher_update (c : Cipheriv) (data : jsstring) : jsstring * Cipheriv :=
  let (out, ctx') := Evp.EncryptUpdate (cipher_ctx c) (Utf8.encode data) in
  let (held, text) := Base64.write (cipher_decoder c) out in
  (text, MkCipheriv ctx' held).

(** [cipher.final('base64')] *)
Definition cipher_final (c : Cipheriv) : jsstring :=
  Base64.finish (cipher_decoder c) (Evp.EncryptFinal (cipher_ctx c)).

(** [decipher.update(data, 'base64', 'utf8')]; [data] is [None] when the
    caller passes [undefined]. *)
Definition decipher_update (d : Decipheriv) (data : option jsstring)
  : result (jsstring * Decipheriv) :=
  match data with
  | None => Throw ERR_INVALID_ARG_TYPE
  | Some s =>
      let (out, ctx') := Evp.DecryptUpdate (decipher_ctx d) (Base64.decode s) in
      let (dec', text) := Utf8.write (decipher_decoder d) out in
      Ok (text, MkDecipheriv ctx' dec')
  end.

(** [decipher.final('utf8')] *)
Definition decipher_final (d : Decipheriv) : result jsstring :=
  match Evp.DecryptFinal (decipher_ctx d) with
  | Ok out => Ok (Utf8.finish (decipher_decoder d) out)
  | Throw e => Throw e
  end.

End Crypto.

(** [s.split(sep)] for a separator of one code unit: never empty. *)
Fixpoint split (sep : N) (s : jsstring) : list jsstring :=
  match s with
  | [] => [[]]
  | c :: s' =>
      if (c =? sep)%N then [] :: split sep s'
      else
        match split sep s' with
        | part :: parts => (c :: part) :: parts
        | [] => [[c]]
        end
  end.

(** ** [helpers/cryptoHelpers.js] *)

Module CryptoHelpers.

(** The top of the module: [ENCRYPTION_KEY] is [process.env.ENCRYPTION_KEY],
    [None] when the variable is not set; loading the module throws unless
    the string is non-empty and has [length] 32. *)
Definition module_init (env_ENCRYPTION_KEY : option jsstring) : result jsstring :=
  match env_ENCRYPTION_KEY with
  | None => Throw ConfigError
  | Some ENCRYPTION_KEY =>
      if (length ENCRYPTION_KEY =? 0)%nat
         || negb (length ENCRYPTION_KEY =? 32)%nat
      then Throw ConfigError
      else Ok ENCRYPTION_KEY
  end.

Definition ALGORITHM : string := "aes-256-cbc".

Definition encrypt (ENCRYPTION_KEY : jsstring) (plaintext : jsstring) : M jsstring :=
  iv <- randomBytes 16 ;;
  cipher <- lift (Crypto.createCipheriv ALGORITHM (Buffer.from ENCRYPTION_KEY) iv) ;;
  let (encrypted, cipher) := Crypto.cipher_update cipher plaintext in
  let encrypted := encrypted ++ Crypto.cipher_final cipher in
  let ivBase64 := Buffer.toString_base64 iv in
  let payload := ivBase64 ++ [colon] ++ encrypted in
  ret payload.

Definition decrypt (ENCRYPTION_KEY : jsstring) (payload : jsstring) : M jsstring :=
  let parts := split colon payload in
  let ivBase64 := hd [] parts in
  let encryptedData := nth_error parts 1 in
  let iv := Buffer.from_base64 ivBase64 in
  decipher <-
    lift (Crypto.createDecipheriv ALGORITHM (Buffer.from ENCRYPTION_KEY) iv) ;;
  ' (decrypted, decipher) <- lift (Crypto.decipher_update decipher encryptedData) ;;
  final <- lift (Crypto.decipher_final decipher) ;;
  ret (decrypted ++ final).

End CryptoHelpers.

(** ** For reference: CBC with PKCS#7 padding over a whole message *)

Module Cbc.

Definition pad (m : buffer) : buffer :=
  let n := (16 - length m mod 16)%nat in
  m ++ repeat (byte_of_N (N.of_nat n)) n.

Definition unpad (p : buffer) : option buffer :=
  match Evp.unpad_block (skipn (length p - 16) p) with
  | Some t => Some (firstn (length p - 16) p ++ t)
  | None => None
  end.

Definition encrypt (key iv m : buffer) : buffer :=
  fst (Evp.cbc_encrypt_blocks (AES.key_expansion key) iv (chunks 16 (pad m))).

Definition decrypt (key iv c : buffer) : option buffer :=
  unpad (fst (Evp.cbc_decrypt_blocks (AES.key_expansion key) iv (chunks 16 c))).

End Cbc.

(** ** For reference: what becomes of the two parts of a token

    The IV and the ciphertext as [decrypt] finds them in the payload; the
    ciphertext is [None] when the payload has no second part. *)
Definition decrypt_parts (key iv : buffer) (data : option buffer) : result jsstring :=
  if negb (length iv =? 16)%nat then Throw ERR_CRYPTO_INVALID_IV
  else if negb (length key =? 32)%nat then Throw ERR_CRYPTO_INVALID_KEYLEN
  else
    match data with
    | None => Throw ERR_INVALID_ARG_TYPE
    | Some c =>
        if (length c =? 0)%nat || negb (length c mod 16 =? 0)%nat
        then Throw ERR_OSSL_WRONG_FINAL_BLOCK_LENGTH
        else
          match Cbc.decrypt key iv c with
          | Some m => Ok (Utf8.decode m)
          | None => Throw ERR_OSSL_BAD_DECRYPT
          end
    end.

(** The sixteen bytes [encrypt] draws for its IV from the source [w]. *)
Definition drawn_iv (w : entropy) : buffer := map w (seq 0 16).

(** ** Checks that are settled by running them *)

Fixpoint forall_range (count : nat) (start : N) (P : N -> bool) : bool :=
  match count with
  | O => true
  | S count' => if P start then forall_range count' (N.succ start) P else false
  end.

Definition decoder_eqb (d1 d2 : Utf8.decoder) : bool :=
  (Utf8.code_point d1 =? Utf8.code_point d2)%N
  && (Utf8.needed d1 =? Utf8.needed d2)%N
  && (Utf8.lower d1 =? Utf8.lower d2)%N
  && (Utf8.upper d1 =? Utf8.upper d2)%N.

Fixpoint units_eqb (s t : jsstring) : bool :=
  match s, t with
  | [], [] => true
  | x :: s', y :: t' => (x =? y)%N && units_eqb s' t'
  | _, _ => false
  end.

(** Reading [buf] from the initial state gives [out] and leaves state [d]. *)
Definition reads_as (buf : buffer) (d : Utf8.decoder) (out : jsstring) : bool :=
  let (d', out') := Utf8.write Utf8.init buf in
  decoder_eqb d' d && units_eqb out' out.

(** A code unit that is no surrogate is read back from its encoding. *)
Definition check_bmp (u : N) : bool :=
  Utf8.is_high_surrogate u || Utf8.is_low_surrogate u
  || reads_as (Utf8.encode_code_point u) Utf8.init [u].

(** The first two bytes of a four-byte sequence leave the decoder with the
    high part [hp] of the code point and two bytes to go. *)
Definition check_lead (hp : N) : bool :=
  reads_as [byte_of_N (0xF0 + hp / 64); byte_of_N (0x80 + hp mod 64)]
           (Utf8.Decoder hp 2 0x80 0xBF) [].

(** A sextet is read back from its character, which is plain ASCII and
    neither ['='] nor [':']. *)
Definition sextet_ok (v : N) : bool :=
  match Base64.unbase64 (Base64.char_of_sextet v) with
  | Some v' => (v' =? v)%N
  | None => false
  end
  && negb (Base64.char_of_sextet v =? Base64.pad_char)%N
  && negb (Base64.char_of_sextet v =? colon)%N
  && (Base64.char_of_sextet v <? 128)%N.

(** ** Sample inputs *)

Definition key1 : jsstring := js "0123456789abcdef0123456789abcdef".
Definition key2 : jsstring := js "0123456789abcdef0123456789abcdh5".

(** 32 code units, 33 bytes: U+00E9 and 31 letters. *)
Definition key_accent : jsstring := 0xE9%N :: js "aaaaaaaaaaaaaaaaaaaaaaaaaaaaaaa".

(** 31 code units, 32 bytes: U+00E9 and 30 letters. *)
Definition key_short : jsstring := 0xE9%N :: js "aaaaaaaaaaaaaaaaaaaaaaaaaaaaaa".

(** A random source that hands out 0, 1, 2, ... *)
Definition w0 : entropy := fun i => byte_of_N (N.of_nat i).

Definition secret : jsstring := js "twitter-api-secret".
Definition long_secret : jsstring :=
  js "1234567890-AbCdEfGhIjKlMnOpQrStUvWxYz0123456789".

(** "caf", U+00E9, a space, U+20AC and the surrogate pair of U+1F600. *)
Definition accented : jsstring := (js "caf" ++ [0xE9; 0x20; 0x20AC; 0xD83D; 0xDE00])%N.

(** What [encrypt key1 secret] returns on the source [w0]. *)
Definition token1 : jsstring :=
  js "AAECAwQFBgcICQoLDA0ODw==:KRhtJNffGHOSkWPVr29qm8VayJnXYgwyhg2ch+0LpOQ=".

(** [token1] with the first character of its second part changed. *)
Definition token1_flipped : jsstring :=
  js "AAECAwQFBgcICQoLDA0ODw==:LRhtJNffGHOSkWPVr29qm8VayJnXYgwyhg2ch+0LpOQ=".


(** [token1] with every code unit of its first part moved up by 0x100:
    U+0141 for ['A'], U+013D for ['='], ... *)
Definition token1_wide : jsstring :=
  map (N.add 0x100) (js "AAECAwQFBgcICQoLDA0ODw==")
    ++ colon :: js "KRhtJNffGHOSkWPVr29qm8VayJnXYgwyhg2ch+0LpOQ=".

(** [token1] with U+0141 put inside its second part. *)
Definition token1_stray : jsstring :=
  js "AAECAwQFBgcICQoLDA0ODw==:KRhtJNff"
    ++ 0x141%N :: js "GHOSkWPVr29qm8VayJnXYgwyhg2ch+0LpOQ=".

(** ** [String.prototype.toWellFormed]

    Every lone surrogate becomes U+FFFD; the rest of the string stays. *)
Fixpoint toWellFormed (s : jsstring) : jsstring :=
  match s with
  | [] => []
  | u :: s' =>
      if Utf8.is_high_surrogate u then
        match s' with
        | v :: s'' =>
            if Utf8.is_low_surrogate v then u :: v :: toWellFormed s''
            else Utf8.replacement :: toWellFormed s'
        | [] => [Utf8.replacement]
        end
      else if Utf8.is_low_surrogate u then Utf8.replacement :: toWellFormed s'
      else u :: toWellFormed s'
  end.

(** ** The routes of [index.js] that call the cipher

    [POST /api/credentials] and [POST /api/tweet/:accountId]. The store
    (Supabase), the Twitter client and the file system are outside the
    program: each of their operations is a parameter that answers from the
    calls made so far, and every call is logged. What the routes write to
    the console is left out. *)

Module TwitterApi.

(** [new TwitterApi({ appKey, appSecret, accessToken, accessSecret })] *)
Record client : Type := Client {
  appKey : jsstring;
  appSecret : jsstring;
  accessToken : jsstring;
  accessSecret : jsstring
}.

End TwitterApi.

Module Routes.

(** A value found in a request or in a row: [undefined] or [null], a
    string, or anything else (a number, a boolean, an array, an object),
    of which only its truthiness matters here. *)
Inductive jsvalue : Type :=
| JNullish
| JString (s : jsstring)
| JOther (truthy : bool).

(** [!!v] *)
Definition truthy (v : jsvalue) : bool :=
  match v with
  | JNullish => false
  | JString s => negb (length s =? 0)%nat
  | JOther t => t
  end.

(** A row of [twitter_accounts], as inserted and as read. *)
Record account_row : Type := Row {
  owner_user_id : jsvalue;
  twitter_api_key : jsvalue;
  twitter_api_secret : jsvalue;
  twitter_access_token : jsvalue;
  twitter_access_secret : jsvalue
}.

(** The [{ data, error }] a Supabase query resolves to; [None] is [null]. *)
Record db_reply (A : Type) : Type := Reply {
  db_data : option A;
  db_error : option jsstring
}.

(** What an external operation does: return (or resolve), or throw (or
    reject) with a message. *)
Inductive outcome (A : Type) : Type :=
| Resolved (a : A)
| Failed (message : jsstring).

Arguments Failed {A} message.

Inductive call : Type :=
| SupabaseInsert (row : account_row)
| SupabaseSelectSingle (accountId : jsstring)
| UploadMedia (client : TwitterApi.client) (path : jsstring) (mimeType : option string)
| UnlinkSync (path : jsstring)
| Tweet (client : TwitterApi.client) (text : jsvalue) (media_ids : option (list jsstring)).

(** The outside world: each operation answers from the calls logged so far
    and its arguments. *)
Record externals : Type := Externals {
  supabase_insert : list call -> account_row -> outcome (db_reply (list account_row));
  supabase_select_single : list call -> jsstring -> outcome (db_reply account_row);
  uploadMedia :
    list call -> TwitterApi.client -> jsstring -> option string -> outcome jsstring;
  unlinkSync : list call -> jsstring -> outcome unit;
  tweet :
    list call -> TwitterApi.client -> jsvalue -> option (list jsstring) -> outcome jsstring
}.

(** What a route may catch. *)
Inductive exn : Type :=
| CipherError (e : error)            (* thrown by [encrypt] or [decrypt] *)
| TypeError                          (* a property of [undefined], a call of a non-function *)
| ExternalError (message : jsstring).

Inductive body : Type :=
| ErrorBody (message : string)                        (* { error } *)
| ErrorDetails (message : string) (details : exn)     (* { error, details: error.message } *)
| StoredBody (account : option account_row)           (* { success: true, account } *)
| TweetBody (tweet : jsstring).                       (* { success: true, tweet } *)

(** [res.status(status).json(json)] *)
Record response : Type := Response {
  status : nat;
  json : body
}.

(** The state a route runs in: the random source and the log of the
    external calls. *)
Record world : Type := World {
  rng : entropy;
  log : list call
}.

Inductive hres (A : Type) : Type :=
| Value (a : A)
| Raise (e : exn).

Arguments Raise {A} e.

Definition H (A : Type) : Type := world -> hres A * world.

Definition hret (A : Type) (a : A) : H A := fun s => (Value a, s).

Definition hraise (A : Type) (e : exn) : H A := fun s => (Raise e, s).

Arguments hraise {A} e.

Definition hbind (A B : Type) (m : H A) (k : A -> H B) : H B :=
  fun s =>
    match m s with
    | (Value a, s') => k a s'
    | (Raise e, s') => (Raise e, s')
    end.

Notation "x <-- m ;; k" := (hbind m (fun x => k))
  (at level 61, m at next level, right associativity).

(** [try { m } catch (err) { handler err }] *)
Definition try_catch (A : Type) (m : H A) (handler : exn -> H A) : H A :=
  fun s =>
    match m s with
    | (Value a, s') => (Value a, s')
    | (Raise e, s') => handler e s'
    end.

(** A call of [encrypt] or [decrypt]. *)
Definition helper (A : Type) (m : M A) : H A :=
  fun s =>
    match m (rng s) with
    | (Ok a, w) => (Value a, World w (log s))
    | (Throw e, w) => (Raise (CipherError e), World w (log s))
    end.

(** A call of an external operation, awaited. *)
Definition external (A : Type) (c : call) (answer : list call -> outcome A) : H A :=
  fun s =>
    match answer (log s) with
    | Resolved a => (Value a, World (rng s) (log s ++ [c]))
    | Failed message => (Raise (ExternalError message), World (rng s) (log s ++ [c]))
    end.

(** [encrypt(v)]: when [v] is not a string the IV is drawn and the cipher
    made, and [cipher.update] then refuses its argument. *)
Definition encrypt_value (ENCRYPTION_KEY : jsstring) (v : jsvalue) : M jsstring :=
  match v with
  | JString plaintext => CryptoHelpers.encrypt ENCRYPTION_KEY plaintext
  | _ =>
      iv <- randomBytes 16 ;;
      cipher <- lift (Crypto.createCipheriv CryptoHelpers.ALGORITHM
                        (Buffer.from ENCRYPTION_KEY) iv) ;;
      lift (Throw ERR_INVALID_ARG_TYPE)
  end.

(** [decrypt(v)]: when [v] is not a string, [v.split] is a type error. *)
Definition decrypt_value (ENCRYPTION_KEY : jsstring) (v : jsvalue) : H jsstring :=
  match v with
  | JString payload => helper (CryptoHelpers.decrypt ENCRYPTION_KEY payload)
  | _ => hraise TypeError
  end.

(** The fields [POST /api/credentials] reads from [req.body]. *)
Record credentials_body : Type := CredentialsBody {
  ownerUserId : jsvalue;
  apiKey : jsvalue;
  apiSecret : jsvalue;
  accessToken : jsvalue;
  accessSecret : jsvalue
}.

(** [app.post('/api/credentials', ...)]; [req_body] is [None] when
    [req.body] is [undefined]. *)
Definition post_credentials (ext : externals) (ENCRYPTION_KEY : jsstring)
    (req_body : option credentials_body) : H response :=
  try_catch
    (match req_body with
     | None => hraise TypeError
     | Some b =>
         if negb (truthy (ownerUserId b)) || negb (truthy (apiKey b))
            || negb (truthy (apiSecret b)) || negb (truthy (accessToken b))
            || negb (truthy (accessSecret b))
         then hret (Response 400 (ErrorBody "All credentials are required."))
         else
           encryptedApiKey <-- helper (encrypt_value ENCRYPTION_KEY (apiKey b)) ;;
           encryptedApiSecret <-- helper (encrypt_value ENCRYPTION_KEY (apiSecret b)) ;;
           encryptedAccessToken <--
             helper (encrypt_value ENCRYPTION_KEY (accessToken b)) ;;
           encryptedAccessSecret <--
             helper (encrypt_value ENCRYPTION_KEY (accessSecret b)) ;;
           let row :=
             Row (ownerUserId b) (JString encryptedApiKey)
               (JString encryptedApiSecret) (JString encryptedAccessToken)
               (JString encryptedAccessSecret) in
           reply <-- external (SupabaseInsert row)
                       (fun h => supabase_insert ext h row) ;;
           match db_error reply with
           | Some _ =>
               hret (Response 500
                       (ErrorBody "Failed to store credentials in Supabase"))
           | None =>
               match db_data reply with
               | None => hraise TypeError
               | Some data => hret (Response 200 (StoredBody (hd_error data)))
               end
           end
     end)
    (fun err => hret (Response 500 (ErrorBody "Failed to store credentials"))).

(** [req.files] after [upload.fields]: each file is known by its [path]. *)
Record uploaded_files : Type := Files {
  images : option (list jsstring);
  video : option (list jsstring)
}.

Record tweet_body : Type := TweetFields {
  text : jsvalue
}.

Record tweet_request : Type := TweetRequest {
  accountId : jsstring;                 (* req.params.accountId *)
  req_body : option tweet_body;         (* req.body *)
  req_files : option uploaded_files     (* req.files *)
}.

(** The loop over [imageFiles]. *)
Fixpoint upload_images (ext : externals) (client : TwitterApi.client)
    (imageFiles : list jsstring) (mediaIds : list jsstring) : H (list jsstring) :=
  match imageFiles with
  | [] => hret mediaIds
  | file :: imageFiles' =>
      mediaId <-- external (UploadMedia client file None)
                    (fun h => uploadMedia ext h client file None) ;;
      _ <-- external (UnlinkSync file) (fun h => unlinkSync ext h file) ;;
      upload_images ext client imageFiles' (mediaIds ++ [mediaId])
  end.

(** Step 5 of the route: [rwClient.v2.tweet] and the answer. *)
Definition send_tweet (ext : externals) (client : TwitterApi.client)
    (text : jsvalue) (mediaIds : list jsstring) : H response :=
  let media := if (0 <? length mediaIds)%nat then Some mediaIds else None in
  tweet <-- external (Tweet client text media)
              (fun h => tweet ext h client text media) ;;
  hret (Response 200 (TweetBody tweet)).

(** [app.post('/api/tweet/:accountId', ...)] *)
Definition post_tweet (ext : externals) (ENCRYPTION_KEY : jsstring)
    (req : tweet_request) : H response :=
  try_catch
    (match req_body req with
     | None => hraise TypeError
     | Some b =>
         match req_files req with
         | None => hraise TypeError
         | Some files =>
             let imageFiles := images files in
             let videoFile := video files in
             if negb (truthy (text b))
             then hret (Response 400 (ErrorBody "Tweet text is required"))
             else
               reply <-- external (SupabaseSelectSingle (accountId req))
                           (fun h => supabase_select_single ext h (accountId req)) ;;
               match db_error reply, db_data reply with
               | Some _, _ | None, None =>
                   hret (Response 404 (ErrorBody "Bot credentials not found"))
               | None, Some account =>
                   decryptedApiKey <--
                     decrypt_value ENCRYPTION_KEY (twitter_api_key account) ;;
                   decryptedApiSecret <--
                     decrypt_value ENCRYPTION_KEY (twitter_api_secret account) ;;
                   decryptedAccessToken <--
                     decrypt_value ENCRYPTION_KEY (twitter_access_token account) ;;
                   decryptedAccessSecret <--
                     decrypt_value ENCRYPTION_KEY (twitter_access_secret account) ;;
                   let client :=
                     TwitterApi.Client decryptedApiKey decryptedApiSecret
                       decryptedAccessToken decryptedAccessSecret in
                   mediaIds <--
                     match imageFiles with
                     | Some fs =>
                         if (0 <? length fs)%nat
                         then upload_images ext client fs []
                         else hret []
                     | None => hret []
                     end ;;
                   match videoFile with
                   | Some (v :: _) =>
                       if (0 <? length mediaIds)%nat
                       then
                         hret (Response 400
                                 (ErrorBody
                                    "Cannot upload both images and videos in a single tweet."))
                       else
                         mediaId <--
                           external (UploadMedia client v (Some "video/mp4"%string))
                             (fun h => uploadMedia ext h client v
                                         (Some "video/mp4"%string)) ;;
                         _ <-- external (UnlinkSync v)
                                 (fun h => unlinkSync ext h v) ;;
                         send_tweet ext client (text b) (mediaIds ++ [mediaId])
                   | _ => send_tweet ext client (text b) mediaIds
                   end
               end
         end
     end)
    (fun error =>
       hret (Response 500 (ErrorDetails "Failed to post tweet" error))).

End Routes.

(** ** For reference: tokens and what the routes hand to Twitter *)

(** The token [encrypt] makes of [s] under [key] when the random source is
    [w]. *)
Definition token_of (key s : jsstring) (w : entropy) : jsstring :=
  Base64.encode (drawn_iv w) ++ [colon]
    ++ Base64.encode (Cbc.encrypt (Utf8.encode key) (drawn_iv w) (Utf8.encode s)).

(** What [decrypt] throws on a stored value, if it throws: a type error
    when the value is no string, and what the cipher throws on the payload
    otherwise. *)
Definition decrypt_failure (key : jsstring) (v : Routes.jsvalue)
  : option Routes.exn :=
  match v with
  | Routes.JString payload =>
      match fst (CryptoHelpers.decrypt key payload w0) with
      | Ok _ => None
      | Throw e => Some (Routes.CipherError e)
      end
  | _ => Some Routes.TypeError
  end.

(** The first failure among the four stored values of a row, taken in the
    order the route decrypts them. *)
Definition first_failure (key : jsstring) (account : Routes.account_row)
  : option Routes.exn :=
  match decrypt_failure key (Routes.twitter_api_key account) with
  | Some e => Some e
  | None =>
      match decrypt_failure key (Routes.twitter_api_secret account) with
      | Some e => Some e
      | None =>
          match decrypt_failure key (Routes.twitter_access_token account) with
          | Some e => Some e
          | None => decrypt_failure key (Routes.twitter_access_secret account)
          end
      end
  end.

(** The client a call goes to Twitter with, if it goes to Twitter. *)
Definition twitter_client_of (c : Routes.call) : option TwitterApi.client :=
  match c with
  | Routes.UploadMedia client _ _ => Some client
  | Routes.Tweet client _ _ => Some client
  | _ => None
  end.

(** A call that does not go to Twitter, or goes there as [client]. *)
Definition with_client (client : TwitterApi.client) (c : Routes.call) : Prop :=
  twitter_client_of c = None \/ twitter_client_of c = Some client.



(** An outside world in which nothing fails: the store returns what it is
    given and finds [found], Twitter answers an upload with an id made of
    ["media-"] and the path. *)
Definition outside (found : option Routes.account_row) : Routes.externals :=
  Routes.Externals
    (fun _ row => Routes.Resolved (Routes.Reply (Some [row]) None))
    (fun _ _ =>
       Routes.Resolved
         (Routes.Reply found
            match found with
            | Some _ => None
            | None => Some (js "PGRST116")
            end))
    (fun _ _ path _ => Routes.Resolved (js "media-" ++ path))
    (fun _ _ => Routes.Resolved tt)
    (fun _ _ _ _ => Routes.Resolved (js "posted")).

Definition calm : Routes.externals := outside None.

(** The row [POST /api/credentials] stores for the sample secrets. *)
Definition sample_row : Routes.account_row :=
  Routes.Row (Routes.JString (js "user-1"))
    (Routes.JString (token_of key1 secret w0))
    (Routes.JString (token_of key1 long_secret (advance 16 w0)))
    (Routes.JString (token_of key1 accented (advance 32 w0)))
    (Routes.JString (token_of key1 (js "x") (advance 48 w0))).

Definition sample_client : TwitterApi.client :=
  TwitterApi.Client secret long_secret accented (js "x").

(** * Facts *)

Unset Implicit Arguments.

(** ** Known answers *)

(** FIPS 197, appendix C.3. *)
Example aes256_fips197 :
  AES.encrypt_block
    (AES.key_expansion
       [x00; x01; x02; x03; x04; x05; x06; x07; x08; x09; x0a; x0b; x0c; x0d; x0e; x0f;
        x10; x11; x12; x13; x14; x15; x16; x17; x18; x19; x1a; x1b; x1c; x1d; x1e; x1f])
    [x00; x11; x22; x33; x44; x55; x66; x77; x88; x99; xaa; xbb; xcc; xdd; xee; xff]
  = [x8e; xa2; xb7; xca; x51; x67; x45; xbf; xea; xfc; x49; x90; x4b; x49; x60; x89].
Proof. vm_compute. reflexivity. Qed.

(** RFC 4648, section 10. *)
Example base64_rfc4648 :
  Base64.encode [x66; x6f; x6f; x62; x61; x72] = js "Zm9vYmFy"
  /\ Base64.encode [x66; x6f; x6f; x62; x61] = js "Zm9vYmE="
  /\ Base64.encode [x66; x6f; x6f; x62] = js "Zm9vYg=="
  /\ Base64.decode (js "Zm9v YmE") = [x66; x6f; x6f; x62; x61].
Proof. repeat split. Qed.

(** U+00E9, U+20AC and U+1F600 take two, three and four bytes; a lone
    surrogate is written as U+FFFD and so does not come back. *)
Example utf8_known :
  Utf8.encode [0xE9; 0x20AC; 0xD83D; 0xDE00]%N
  = [xc3; xa9; xe2; x82; xac; xf0; x9f; x98; x80]
  /\ Utf8.encode [0xD83D]%N = [xef; xbf; xbd]
  /\ Utf8.decode (Utf8.encode [0xD83D]%N) = [0xFFFD]%N.
Proof. repeat split. Qed.

(** The reader takes the low byte of each code unit: U+0151 U+0155 U+014A
    U+0144 is read as "QUJD", U+013D ends the text as ['='] does, U+0120 is
    skipped as a space is, and U+013A, which [split] does not take for a
    colon, is skipped as a colon is. *)
Example base64_low_byte :
  Base64.decode [0x151; 0x155; 0x14A; 0x144]%N = [x41; x42; x43]
  /\ Base64.decode (js "QUJD" ++ 0x13D%N :: js "QUJD") = [x41; x42; x43]
  /\ Base64.decode (js "QU" ++ 0x120%N :: 0x13A%N :: js "JD") = [x41; x42; x43]
  /\ split colon (js "QU" ++ 0x13A%N :: js "JD") = [js "QU" ++ 0x13A%N :: js "JD"].
Proof. repeat split. Qed.

Example split_known :
  split colon (js "a:b:c") = [js "a"; js "b"; js "c"]
  /\ split colon (js "ab") = [js "ab"]
  /\ split colon [] = [[]].
Proof. repeat split. Qed.

(** ** Lists cut into blocks *)

Section Chunks.
Variable A : Type.

Lemma chunks_aux_fuel (n : nat) :
  (0 < n)%nat ->
  forall (f1 f2 : nat) (l : list A),
    (length l <= f1)%nat -> (length l <= f2)%nat ->
    chunks_aux f1 n l = chunks_aux f2 n l.
Proof.
  intros Hn. induction f1 as [|f1 IH]; intros f2 l H1 H2.
  - destruct l; [destruct f2; reflexivity | cbn [length] in H1; lia].
  - destruct l as [|x l]; [destruct f2; reflexivity|].
    destruct f2 as [|f2]; [cbn [length] in H2; lia|].
    cbn [chunks_aux]. f_equal. apply IH.
    + rewrite length_skipn. cbn [length] in *. lia.
    + rewrite length_skipn. cbn [length] in *. lia.
Qed.

Lemma chunks_aux_step (f n : nat) (l : list A) :
  l <> [] ->
  chunks_aux (S f) n l = firstn n l :: chunks_aux f n (skipn n l).
Proof. destruct l; [congruence | reflexivity]. Qed.

Lemma chunks_app_block (n : nat) (a l : list A) :
  (0 < n)%nat -> length a = n ->
  chunks n (a ++ l) = a :: chunks n l.
Proof.
  intros Hn Ha. unfold chunks.
  assert (Hne : a ++ l <> []) by (destruct a; [simpl in Ha; lia | discriminate]).
  rewrite length_app.
  replace (length a + length l)%nat with (S (n - 1 + length l)) by lia.
  rewrite chunks_aux_step by exact Hne.
  rewrite firstn_app, skipn_app, Ha, Nat.sub_diag.
  subst n. rewrite firstn_all, skipn_all.
  cbn [firstn skipn app]. rewrite app_nil_r. f_equal.
  apply chunks_aux_fuel; [assumption | lia | lia].
Qed.

Lemma chunks_nil (n : nat) : chunks n (@nil A) = [].
Proof. reflexivity. Qed.

(** Induction on a buffer made of whole blocks. *)
Lemma blocks_ind (n : nat) (P : list A -> Prop) :
  P [] ->
  (forall a l, length a = n -> P l -> P (a ++ l)) ->
  forall (k : nat) (l : list A), length l = (n * k)%nat -> P l.
Proof.
  intros Hnil Hstep. induction k as [|k IH]; intros l Hl.
  - rewrite Nat.mul_0_r in Hl. apply length_zero_iff_nil in Hl. subst. exact Hnil.
  - rewrite <- (firstn_skipn n l). apply Hstep.
    + rewrite length_firstn. nia.
    + apply IH. rewrite length_skipn. nia.
Qed.

Lemma chunks_app (n k : nat) (a b : list A) :
  (0 < n)%nat -> length a = (n * k)%nat ->
  chunks n (a ++ b) = chunks n a ++ chunks n b.
Proof.
  intros Hn Ha. revert k a Ha.
  refine (blocks_ind n _ _ _).
  - reflexivity.
  - intros a l Hl IH. rewrite <- app_assoc.
    rewrite (chunks_app_block n a (l ++ b) Hn Hl).
    rewrite (chunks_app_block n a l Hn Hl). rewrite IH. reflexivity.
Qed.

Lemma chunks_block (n : nat) (a : list A) :
  (0 < n)%nat -> length a = n -> chunks n a = [a].
Proof.
  intros Hn Ha. rewrite <- (app_nil_r a) at 1.
  rewrite chunks_app_block by assumption. reflexivity.
Qed.

End Chunks.

(** ** AES: the inverse cipher undoes the cipher *)

Section AESFacts.
Import AES.

Ltac bits_of a :=
  let a0 := fresh a "0" in let a1 := fresh a "1" in let a2 := fresh a "2" in
  let a3 := fresh a "3" in let a4 := fresh a "4" in let a5 := fresh a "5" in
  let a6 := fresh a "6" in let a7 := fresh a "7" in
  rewrite <- (Byte.of_bits_to_bits a);
  destruct (Byte.to_bits a) as [a0 [a1 [a2 [a3 [a4 [a5 [a6 a7]]]]]]].

Ltac bit_blast :=
  repeat (rewrite Byte.to_bits_of_bits; cbv beta iota);
  repeat (f_equal; try ring).

Lemma bxor_cancel_r (a b : byte) : bxor (bxor a b) b = a.
Proof. bits_of a. bits_of b. cbv [bxor]. bit_blast. Qed.

Lemma inv_sbox_sbox (b : byte) : inv_sbox (sbox b) = b.
Proof. destruct b; reflexivity. Qed.

Lemma sbox_inv_sbox (b : byte) : sbox (inv_sbox b) = b.
Proof. destruct b; reflexivity. Qed.

Lemma inv_mix_column_mix_column (a b c d : byte) :
  inv_mix_column
    (bxor (mul2 a) (bxor (mul3 b) (bxor c d)))
    (bxor a (bxor (mul2 b) (bxor (mul3 c) d)))
    (bxor a (bxor b (bxor (mul2 c) (mul3 d))))
    (bxor (mul3 a) (bxor b (bxor c (mul2 d))))
  = [a; b; c; d].
Proof.
  bits_of a. bits_of b. bits_of c. bits_of d.
  cbv [inv_mix_column mul2 mul3 mul9 mul11 mul13 mul14 xtime bxor].
  bit_blast.
Qed.

Lemma mix_column_inv_mix_column (a b c d : byte) :
  mix_column
    (bxor (mul14 a) (bxor (mul11 b) (bxor (mul13 c) (mul9 d))))
    (bxor (mul9 a) (bxor (mul14 b) (bxor (mul11 c) (mul13 d))))
    (bxor (mul13 a) (bxor (mul9 b) (bxor (mul14 c) (mul11 d))))
    (bxor (mul11 a) (bxor (mul13 b) (bxor (mul9 c) (mul14 d))))
  = [a; b; c; d].
Proof.
  bits_of a. bits_of b. bits_of c. bits_of d.
  cbv [mix_column mul2 mul3 mul9 mul11 mul13 mul14 xtime bxor].
  bit_blast.
Qed.

Lemma length_xor_bytes (s k : buffer) : length (xor_bytes s k) = length s.
Proof.
  revert k. induction s as [|x s IH]; intros k; simpl; [reflexivity|].
  rewrite IH. reflexivity.
Qed.

Lemma xor_bytes_cancel (s k : buffer) : xor_bytes (xor_bytes s k) k = s.
Proof.
  revert k. induction s as [|x s IH]; intros k; simpl; [reflexivity|].
  rewrite bxor_cancel_r, IH. reflexivity.
Qed.

Lemma inv_sub_bytes_sub_bytes (s : buffer) : inv_sub_bytes (sub_bytes s) = s.
Proof.
  unfold inv_sub_bytes, sub_bytes. rewrite map_map.
  rewrite <- (map_id s) at 2. apply map_ext. exact inv_sbox_sbox.
Qed.

Lemma sub_bytes_inv_sub_bytes (s : buffer) : sub_bytes (inv_sub_bytes s) = s.
Proof.
  unfold inv_sub_bytes, sub_bytes. rewrite map_map.
  rewrite <- (map_id s) at 2. apply map_ext. exact sbox_inv_sbox.
Qed.

(** Name the sixteen bytes of a block. *)
Ltac as_block s H :=
  do 16 (destruct s as [|? s]; [discriminate H|]);
  destruct s; [clear H | discriminate H].

Lemma inv_shift_rows_shift_rows (s : buffer) :
  length s = 16%nat -> inv_shift_rows (shift_rows s) = s.
Proof. intros H. as_block s H. reflexivity. Qed.

Lemma shift_rows_inv_shift_rows (s : buffer) :
  length s = 16%nat -> shift_rows (inv_shift_rows s) = s.
Proof. intros H. as_block s H. reflexivity. Qed.

Lemma length_shift_rows (s : buffer) :
  length s = 16%nat -> length (shift_rows s) = 16%nat.
Proof. intros H. as_block s H. reflexivity. Qed.

Lemma length_inv_shift_rows (s : buffer) :
  length s = 16%nat -> length (inv_shift_rows s) = 16%nat.
Proof. intros H. as_block s H. reflexivity. Qed.

Lemma length_mix_columns (s : buffer) :
  length s = 16%nat -> length (mix_columns s) = 16%nat.
Proof. intros H. as_block s H. reflexivity. Qed.

Lemma length_inv_mix_columns (s : buffer) :
  length s = 16%nat -> length (inv_mix_columns s) = 16%nat.
Proof. intros H. as_block s H. reflexivity. Qed.

Lemma inv_mix_columns_mix_columns (s : buffer) :
  length s = 16%nat -> inv_mix_columns (mix_columns s) = s.
Proof.
  intros H. as_block s H.
  cbn [mix_columns mix_column app inv_mix_columns].
  rewrite !inv_mix_column_mix_column. reflexivity.
Qed.

Lemma mix_columns_inv_mix_columns (s : buffer) :
  length s = 16%nat -> mix_columns (inv_mix_columns s) = s.
Proof.
  intros H. as_block s H.
  cbn [mix_columns inv_mix_column app inv_mix_columns].
  rewrite !mix_column_inv_mix_column. reflexivity.
Qed.

Lemma length_round (rk s : buffer) :
  length s = 16%nat -> length (round rk s) = 16%nat.
Proof.
  intros H. unfold round. rewrite length_xor_bytes.
  apply length_mix_columns, length_shift_rows.
  unfold sub_bytes. rewrite length_map. exact H.
Qed.

Lemma length_final_round (rk s : buffer) :
  length s = 16%nat -> length (final_round rk s) = 16%nat.
Proof.
  intros H. unfold final_round. rewrite length_xor_bytes.
  apply length_shift_rows. unfold sub_bytes. rewrite length_map. exact H.
Qed.

Lemma inv_round_round (rk s : buffer) :
  length s = 16%nat -> inv_round rk (round rk s) = s.
Proof.
  intros H. unfold inv_round, round.
  assert (H1 : length (sub_bytes s) = 16%nat)
    by (unfold sub_bytes; rewrite length_map; exact H).
  rewrite xor_bytes_cancel.
  rewrite inv_mix_columns_mix_columns by (apply length_shift_rows; exact H1).
  rewrite inv_shift_rows_shift_rows by exact H1.
  apply inv_sub_bytes_sub_bytes.
Qed.

Lemma inv_final_round_final_round (rk s : buffer) :
  length s = 16%nat -> inv_final_round rk (final_round rk s) = s.
Proof.
  intros H. unfold inv_final_round, final_round.
  assert (H1 : length (sub_bytes s) = 16%nat)
    by (unfold sub_bytes; rewrite length_map; exact H).
  rewrite xor_bytes_cancel.
  rewrite inv_shift_rows_shift_rows by exact H1.
  apply inv_sub_bytes_sub_bytes.
Qed.

Lemma length_rounds (rks : list buffer) (s : buffer) :
  length s = 16%nat -> length (rounds rks s) = 16%nat.
Proof.
  revert s. induction rks as [|rk rks IH]; intros s H; [exact H|].
  destruct rks as [|rk' rks].
  - apply length_final_round. exact H.
  - change (length (rounds (rk' :: rks) (round rk s)) = 16%nat).
    apply IH, length_round. exact H.
Qed.

Lemma inv_rounds_rounds (rks : list buffer) (s : buffer) :
  length s = 16%nat -> inv_rounds rks (rounds rks s) = s.
Proof.
  revert s. induction rks as [|rk rks IH]; intros s H; [reflexivity|].
  destruct rks as [|rk' rks].
  - apply inv_final_round_final_round. exact H.
  - change (inv_round rk (inv_rounds (rk' :: rks) (rounds (rk' :: rks) (round rk s))) = s).
    rewrite IH by (apply length_round; exact H).
    apply inv_round_round. exact H.
Qed.

Lemma length_inv_round (rk s : buffer) :
  length s = 16%nat -> length (inv_round rk s) = 16%nat.
Proof.
  intros H. unfold inv_round, inv_sub_bytes. rewrite length_map.
  apply length_inv_shift_rows, length_inv_mix_columns.
  rewrite length_xor_bytes. exact H.
Qed.

Lemma length_inv_final_round (rk s : buffer) :
  length s = 16%nat -> length (inv_final_round rk s) = 16%nat.
Proof.
  intros H. unfold inv_final_round, inv_sub_bytes. rewrite length_map.
  apply length_inv_shift_rows. rewrite length_xor_bytes. exact H.
Qed.

Lemma length_inv_rounds (rks : list buffer) (s : buffer) :
  length s = 16%nat -> length (inv_rounds rks s) = 16%nat.
Proof.
  revert s. induction rks as [|rk rks IH]; intros s H; [exact H|].
  destruct rks as [|rk' rks].
  - apply length_inv_final_round. exact H.
  - change (length (inv_round rk (inv_rounds (rk' :: rks) s)) = 16%nat).
    apply length_inv_round, IH. exact H.
Qed.

Lemma length_decrypt_block (rks : list buffer) (b : buffer) :
  length b = 16%nat -> length (decrypt_block rks b) = 16%nat.
Proof.
  intros H. unfold decrypt_block. rewrite length_xor_bytes.
  apply length_inv_rounds. exact H.
Qed.

Lemma length_encrypt_block (rks : list buffer) (b : buffer) :
  length b = 16%nat -> length (encrypt_block rks b) = 16%nat.
Proof.
  intros H. unfold encrypt_block. apply length_rounds.
  rewrite length_xor_bytes. exact H.
Qed.

(** The inverse cipher undoes the cipher, whatever the round keys. *)
Lemma decrypt_block_encrypt_block (rks : list buffer) (b : buffer) :
  length b = 16%nat -> decrypt_block rks (encrypt_block rks b) = b.
Proof.
  intros H. unfold decrypt_block, encrypt_block.
  rewrite inv_rounds_rounds by (rewrite length_xor_bytes; exact H).
  apply xor_bytes_cancel.
Qed.

End AESFacts.

(** ** CBC: the update/final stream against the whole message *)

Section CbcFacts.
Import AES Evp.

Lemma cbc_encrypt_blocks_app (rks : list buffer) (bs1 bs2 : list buffer) :
  forall iv : buffer,
    cbc_encrypt_blocks rks iv (bs1 ++ bs2) =
    let (o1, iv1) := cbc_encrypt_blocks rks iv bs1 in
    let (o2, iv2) := cbc_encrypt_blocks rks iv1 bs2 in
    (o1 ++ o2, iv2).
Proof.
  induction bs1 as [|b bs1 IH]; intros iv; cbn [app cbc_encrypt_blocks].
  - destruct (cbc_encrypt_blocks rks iv bs2). reflexivity.
  - rewrite IH.
    destruct (cbc_encrypt_blocks rks _ bs1) as [o1 iv1].
    destruct (cbc_encrypt_blocks rks iv1 bs2) as [o2 iv2].
    rewrite app_assoc. reflexivity.
Qed.

Lemma length_whole_partial (data : buffer) :
  whole_blocks data ++ partial_block data = data
  /\ length (whole_blocks data) = (16 * (length data / 16))%nat
  /\ length (partial_block data) = (length data mod 16)%nat.
Proof.
  unfold whole_blocks, partial_block.
  pose proof (Nat.div_mod_eq (length data) 16) as E.
  split; [apply firstn_skipn|]. split.
  - rewrite length_firstn. lia.
  - rewrite length_skipn. lia.
Qed.

Lemma partial_block_aligned (k : nat) (data : buffer) :
  length data = (16 * k)%nat ->
  whole_blocks data = data /\ partial_block data = [].
Proof.
  intros H. unfold whole_blocks, partial_block.
  replace (length data / 16)%nat with k
    by (rewrite H, Nat.mul_comm, Nat.div_mul; lia).
  rewrite <- H. split; [apply firstn_all | apply skipn_all].
Qed.

Lemma pad_split (m : buffer) :
  Cbc.pad m =
  whole_blocks m ++
    (partial_block m ++
       repeat (byte_of_N (N.of_nat (16 - length (partial_block m))))
              (16 - length (partial_block m))).
Proof.
  destruct (length_whole_partial m) as (E & _ & L).
  unfold Cbc.pad. rewrite L, app_assoc, E. reflexivity.
Qed.

(** One [update] on a fresh context followed by [final] is CBC over the
    padded message. *)
Lemma evp_encrypt_stream (key iv m : buffer) :
  (let (out, c) := EncryptUpdate (init key iv) m in out ++ EncryptFinal c)
  = Cbc.encrypt key iv m.
Proof.
  destruct (length_whole_partial m) as (E & Lw & Lp).
  unfold Cbc.encrypt, EncryptUpdate, EncryptFinal, init.
  cbn [buf round_keys chain app].
  rewrite pad_split.
  rewrite (@chunks_app _ 16 (length m / 16)) by (lia || exact Lw).
  rewrite cbc_encrypt_blocks_app.
  destruct (cbc_encrypt_blocks (key_expansion key) iv (chunks 16 (whole_blocks m)))
    as [o1 iv1].
  cbn [buf round_keys chain].
  rewrite chunks_block.
  - destruct (cbc_encrypt_blocks (key_expansion key) iv1 _) as [o2 iv2].
    reflexivity.
  - lia.
  - rewrite length_app, repeat_length.
    pose proof (Nat.mod_upper_bound (length m) 16). lia.
Qed.

Lemma length_cbc_encrypt_blocks (rks : list buffer) (k : nat) (p : buffer) :
  length p = (16 * k)%nat ->
  forall iv : buffer,
    length (fst (cbc_encrypt_blocks rks iv (chunks 16 p))) = length p.
Proof.
  revert k p. refine (blocks_ind byte 16 _ _ _).
  - reflexivity.
  - intros a l Ha IH iv. rewrite chunks_app_block by (lia || exact Ha).
    cbn [cbc_encrypt_blocks]. specialize (IH (encrypt_block rks (xor_bytes a iv))).
    destruct (cbc_encrypt_blocks rks _ (chunks 16 l)) as [o iv'].
    cbn [fst] in *. rewrite !length_app, IH.
    rewrite length_encrypt_block by (rewrite length_xor_bytes; exact Ha). lia.
Qed.

Lemma length_cbc_decrypt_blocks (rks : list buffer) (k : nat) (c : buffer) :
  length c = (16 * k)%nat ->
  forall iv : buffer,
    length (fst (cbc_decrypt_blocks rks iv (chunks 16 c))) = length c.
Proof.
  revert k c. refine (blocks_ind byte 16 _ _ _).
  - reflexivity.
  - intros a l Ha IH iv. rewrite chunks_app_block by (lia || exact Ha).
    cbn [cbc_decrypt_blocks]. specialize (IH a).
    destruct (cbc_decrypt_blocks rks _ (chunks 16 l)) as [o iv'].
    cbn [fst] in *. rewrite !length_app, IH, length_xor_bytes.
    rewrite length_decrypt_block by exact Ha. lia.
Qed.

Lemma cbc_decrypt_encrypt_blocks (rks : list buffer) (k : nat) (p : buffer) :
  length p = (16 * k)%nat ->
  forall iv : buffer,
    length iv = 16%nat ->
    fst (cbc_decrypt_blocks rks iv
           (chunks 16 (fst (cbc_encrypt_blocks rks iv (chunks 16 p))))) = p.
Proof.
  revert k p. refine (blocks_ind byte 16 _ _ _).
  - reflexivity.
  - intros a l Ha IH iv Hiv. rewrite chunks_app_block by (lia || exact Ha).
    cbn [cbc_encrypt_blocks].
    assert (Hc : length (encrypt_block rks (xor_bytes a iv)) = 16%nat)
      by (apply length_encrypt_block; rewrite length_xor_bytes; exact Ha).
    specialize (IH (encrypt_block rks (xor_bytes a iv)) Hc).
    destruct (cbc_encrypt_blocks rks _ (chunks 16 l)) as [o iv'].
    cbn [fst] in *. rewrite chunks_app_block by (lia || exact Hc).
    cbn [cbc_decrypt_blocks].
    destruct (cbc_decrypt_blocks rks _ (chunks 16 o)) as [o' iv''].
    cbn [fst] in *. subst o'.
    rewrite decrypt_block_encrypt_block by (rewrite length_xor_bytes; exact Ha).
    rewrite xor_bytes_cancel. reflexivity.
Qed.

Lemma to_N_byte_of_N (n : N) : (n < 256)%N -> Byte.to_N (byte_of_N n) = n.
Proof.
  intros H. unfold byte_of_N. destruct (Byte.of_N n) as [b|] eqn:E.
  - apply Byte.to_of_N. exact E.
  - apply Byte.of_N_None_iff in E. lia.
Qed.

Lemma byte_of_N_to_N (b : byte) : byte_of_N (Byte.to_N b) = b.
Proof. unfold byte_of_N. rewrite Byte.of_to_N. reflexivity. Qed.

Lemma to_nat_byte_of_nat (n : nat) :
  (n < 256)%nat -> Byte.to_nat (byte_of_N (N.of_nat n)) = n.
Proof.
  intros H. rewrite Byte.to_nat_via_N, to_N_byte_of_N by lia. lia.
Qed.

Lemma forallb_eqb_repeat (b : byte) (n : nat) :
  forallb (Byte.eqb b) (repeat b n) = true.
Proof.
  induction n as [|n IH]; [reflexivity|].
  cbn [repeat forallb]. rewrite IH, andb_true_r.
  apply Byte.byte_dec_lb. reflexivity.
Qed.

Lemma length_pad (m : buffer) :
  length (Cbc.pad m) = (16 * (length m / 16 + 1))%nat.
Proof.
  unfold Cbc.pad. rewrite length_app, repeat_length.
  pose proof (Nat.div_mod_eq (length m) 16).
  pose proof (Nat.mod_upper_bound (length m) 16). lia.
Qed.

Lemma unpad_pad (m : buffer) : Cbc.unpad (Cbc.pad m) = Some m.
Proof.
  unfold Cbc.unpad. rewrite length_pad. unfold Cbc.pad.
  pose proof (Nat.div_mod_eq (length m) 16) as E.
  pose proof (Nat.mod_upper_bound (length m) 16) as U.
  set (n := (16 - length m mod 16)%nat).
  set (b := byte_of_N (N.of_nat n)).
  set (j := (16 * (length m / 16 + 1) - 16)%nat).
  assert (Hj : (j <= length m)%nat) by lia.
  assert (Hn : (1 <= n <= 16)%nat) by lia.
  rewrite skipn_app, firstn_app.
  replace (j - length m)%nat with 0%nat by lia.
  cbn [skipn firstn]. rewrite app_nil_r.
  unfold unpad_block.
  assert (Hlast : last (skipn j m ++ repeat b n) x00 = b).
  { destruct n as [|n']; [lia|].
    replace (S n') with (n' + 1)%nat by lia.
    rewrite repeat_app, app_assoc. cbn [repeat]. apply last_last. }
  assert (Hb : Byte.to_nat b = n) by (apply to_nat_byte_of_nat; lia).
  rewrite Hlast, Hb.
  replace ((n =? 0)%nat || (16 <? n)%nat) with false.
  2:{ symmetry. apply orb_false_iff. split.
      - apply Nat.eqb_neq. lia.
      - apply Nat.ltb_ge. lia. }
  assert (Hs : length (skipn j m) = (16 - n)%nat)
    by (rewrite length_skipn; lia).
  rewrite skipn_app, firstn_app, Hs, Nat.sub_diag.
  rewrite <- Hs at 1. rewrite skipn_all.
  rewrite <- Hs at 1. rewrite firstn_all.
  cbn [skipn firstn app]. rewrite app_nil_r.
  fold b. rewrite forallb_eqb_repeat.
  rewrite firstn_skipn. reflexivity.
Qed.

Lemma length_cbc_encrypt (key iv m : buffer) :
  length (Cbc.encrypt key iv m) = (16 * (length m / 16 + 1))%nat.
Proof.
  unfold Cbc.encrypt.
  rewrite (length_cbc_encrypt_blocks _ _ _ (length_pad m)). apply length_pad.
Qed.

(** CBC decryption undoes CBC encryption under the same key and IV. *)
Lemma cbc_decrypt_encrypt (key iv m : buffer) :
  length iv = 16%nat ->
  Cbc.decrypt key iv (Cbc.encrypt key iv m) = Some m.
Proof.
  intros Hiv. unfold Cbc.decrypt, Cbc.encrypt.
  rewrite (cbc_decrypt_encrypt_blocks _ _ _ (length_pad m) _ Hiv).
  apply unpad_pad.
Qed.

(** One [update] with whole blocks on a fresh context keeps the last
    decrypted block for [final], which checks and strips the padding. *)
Lemma evp_decrypt_stream (key iv c : buffer) (k : nat) :
  length c = (16 * S k)%nat ->
  let dec := fst (cbc_decrypt_blocks (key_expansion key) iv (chunks 16 c)) in
  exists c' : ctx,
    DecryptUpdate (init key iv) c = (firstn (length dec - 16) dec, c')
    /\ DecryptFinal c' =
       match unpad_block (skipn (length dec - 16) dec) with
       | Some t => Ok t
       | None => Throw ERR_OSSL_BAD_DECRYPT
       end.
Proof.
  intros Hc dec. unfold DecryptUpdate, init.
  destruct c as [|x c']; [cbn [length] in Hc; lia|].
  cbn [buf round_keys chain final app].
  destruct (partial_block_aligned (S k) (x :: c') Hc) as [Hw Hp].
  rewrite Hw, Hp. unfold dec.
  destruct (cbc_decrypt_blocks (key_expansion key) iv (chunks 16 (x :: c')))
    as [o iv'].
  cbn [fst app]. eexists. split; [reflexivity|].
  unfold DecryptFinal. cbn [buf final]. reflexivity.
Qed.

(** With no input at all, or input that is not a whole number of blocks,
    [final] reports a wrong final block length. *)
Lemma evp_decrypt_misaligned (key iv c : buffer) :
  (length c mod 16 <> 0)%nat \/ c = [] ->
  DecryptFinal (snd (DecryptUpdate (init key iv) c))
  = Throw ERR_OSSL_WRONG_FINAL_BLOCK_LENGTH.
Proof.
  intros H. unfold DecryptUpdate, init.
  destruct c as [|x c']; [reflexivity|].
  destruct H as [H | H]; [|discriminate H].
  cbn [buf round_keys chain final app].
  destruct (length_whole_partial (x :: c')) as (_ & _ & Lp).
  destruct (cbc_decrypt_blocks _ _ _) as [o iv'].
  destruct (partial_block (x :: c')) as [|y rest] eqn:E.
  - rewrite <- Lp in H. exfalso. apply H. reflexivity.
  - reflexivity.
Qed.

End CbcFacts.

(** ** Checking a property of every number in a range by running it *)

Lemma forall_range_sound (P : N -> bool) (count : nat) :
  forall start : N,
    forall_range count start P = true ->
    forall v : N, (start <= v < start + N.of_nat count)%N -> P v = true.
Proof.
  induction count as [|count IH]; intros start H v Hv; [lia|].
  cbn [forall_range] in H. destruct (P start) eqn:E; [|discriminate H].
  destruct (N.eq_dec v start) as [->|Hne]; [exact E|].
  apply (IH (N.succ start) H). lia.
Qed.

(** ** Base64 *)

Section Base64Facts.
Import Base64.

Local Ltac Zify.zify_post_hook ::= Z.to_euclidean_division_equations.

Lemma sextet_ok_all (v : N) : (v < 64)%N -> sextet_ok v = true.
Proof.
  intros H. apply (forall_range_sound sextet_ok 64 0); [vm_compute; reflexivity | lia].
Qed.

Lemma unbase64_char_of_sextet (v : N) :
  (v < 64)%N -> unbase64 (char_of_sextet v) = Some v.
Proof.
  intros H. pose proof (sextet_ok_all v H) as K. unfold sextet_ok in K.
  destruct (unbase64 (char_of_sextet v)) as [v'|]; [|discriminate K].
  apply andb_prop in K. destruct K as [K _].
  apply andb_prop in K. destruct K as [K _].
  apply andb_prop in K. destruct K as [K _].
  apply N.eqb_eq in K. subst. reflexivity.
Qed.

Lemma char_of_sextet_not_pad (v : N) :
  (v < 64)%N -> (char_of_sextet v =? pad_char)%N = false.
Proof.
  intros H. pose proof (sextet_ok_all v H) as K. unfold sextet_ok in K.
  apply andb_prop in K. destruct K as [K _].
  apply andb_prop in K. destruct K as [K _].
  apply andb_prop in K. destruct K as [_ K].
  apply negb_true_iff in K. exact K.
Qed.

Lemma char_of_sextet_plain (v : N) :
  (v < 64)%N -> char_of_sextet v <> colon /\ (char_of_sextet v < 128)%N.
Proof.
  intros H. pose proof (sextet_ok_all v H) as K. unfold sextet_ok in K.
  apply andb_prop in K. destruct K as [K K2].
  apply andb_prop in K. destruct K as [_ K1].
  apply negb_true_iff, N.eqb_neq in K1. apply N.ltb_lt in K2. auto.
Qed.

Lemma sextets_cons (v : N) (s : jsstring) :
  (v < 64)%N -> sextets (char_of_sextet v :: s) = v :: sextets s.
Proof.
  intros H. cbn [sextets]. rewrite unbase64_char_of_sextet by exact H.
  reflexivity.
Qed.

Lemma sextets_pad (s : jsstring) : sextets (pad_char :: s) = [].
Proof. reflexivity. Qed.

(** Induction on a buffer three bytes at a time. *)
Lemma buffer_ind3 (P : buffer -> Prop) :
  P [] -> (forall a, P [a]) -> (forall a b, P [a; b]) ->
  (forall a b c l, P l -> P (a :: b :: c :: l)) ->
  forall l, P l.
Proof.
  intros H0 H1 H2 H3 l.
  assert (G : forall n l, (length l <= n)%nat -> P l).
  { induction n as [|n IH]; intros l' Hl.
    - destruct l'; [exact H0 | cbn [length] in Hl; lia].
    - destruct l' as [|a [|b [|c l'']]]; auto.
      apply H3, IH. cbn [length] in Hl. lia. }
  apply (G (length l)). lia.
Qed.

Lemma byte_bound (b : byte) : (Byte.to_N b < 256)%N.
Proof. pose proof (Byte.to_N_bounded b). lia. Qed.

(** Decoding undoes encoding. *)
Lemma base64_decode_encode (buf : buffer) : decode (encode buf) = buf.
Proof.
  unfold decode. induction buf as [|a|a b|a b c l IH] using buffer_ind3.
  - reflexivity.
  - pose proof (byte_bound a). cbn [encode].
    rewrite !sextets_cons by lia. rewrite sextets_pad. cbn [pack]. f_equal.
    rewrite <- (byte_of_N_to_N a) at 3. f_equal. lia.
  - pose proof (byte_bound a). pose proof (byte_bound b). cbn [encode].
    rewrite !sextets_cons by lia. rewrite sextets_pad. cbn [pack]. f_equal; [|f_equal].
    + rewrite <- (byte_of_N_to_N a) at 3. f_equal. lia.
    + rewrite <- (byte_of_N_to_N b) at 3. f_equal. lia.
  - pose proof (byte_bound a). pose proof (byte_bound b).
    pose proof (byte_bound c). cbn [encode].
    rewrite !sextets_cons by lia. cbn [pack]. rewrite IH.
    f_equal; [|f_equal; [|f_equal]].
    + rewrite <- (byte_of_N_to_N a) at 3. f_equal. lia.
    + rewrite <- (byte_of_N_to_N b) at 3. f_equal. lia.
    + rewrite <- (byte_of_N_to_N c) at 3. f_equal. lia.
Qed.

Lemma base64_encode_injective (a b : buffer) : encode a = encode b -> a = b.
Proof.
  intros H. rewrite <- (base64_decode_encode a), <- (base64_decode_encode b), H. reflexivity.
Qed.

(** The text is plain ASCII and holds no [':']. *)
Lemma base64_encode_plain (buf : buffer) :
  Forall (fun c => c <> colon /\ (c < 128)%N) (encode buf).
Proof.
  assert (Hpad : pad_char <> colon /\ (pad_char < 128)%N)
    by (split; [discriminate | reflexivity]).
  induction buf as [|a|a b|a b c l IH] using buffer_ind3.
  - constructor.
  - pose proof (byte_bound a). cbn [encode].
    repeat (constructor; [first [exact Hpad | apply char_of_sextet_plain; lia]|]).
    constructor.
  - pose proof (byte_bound a). pose proof (byte_bound b). cbn [encode].
    repeat (constructor; [first [exact Hpad | apply char_of_sextet_plain; lia]|]).
    constructor.
  - pose proof (byte_bound a). pose proof (byte_bound b).
    pose proof (byte_bound c). cbn [encode].
    repeat (constructor; [apply char_of_sextet_plain; lia|]).
    exact IH.
Qed.

Lemma base64_encode_app (k : nat) (a b : buffer) :
  length a = (3 * k)%nat -> encode (a ++ b) = encode a ++ encode b.
Proof.
  revert a. induction k as [|k IH]; intros a Ha.
  - destruct a; [reflexivity | cbn [length] in Ha; lia].
  - destruct a as [|x [|y [|z a]]]; cbn [length] in Ha; try lia.
    cbn [app encode]. rewrite IH by lia. reflexivity.
Qed.

(** What [update] and [final] return, put end to end, is the encoding of
    everything the cipher produced. *)
Lemma base64_write_finish (out fin : buffer) :
  (let (held, text) := write [] out in text ++ finish held fin)
  = encode (out ++ fin).
Proof.
  unfold finish, write. cbn [app].
  pose proof (Nat.div_mod_eq (length out) 3) as E1.
  set (n1 := (length out - length out mod 3)%nat).
  set (all := skipn n1 out ++ fin).
  pose proof (Nat.div_mod_eq (length all) 3) as E2.
  set (n2 := (length all - length all mod 3)%nat).
  rewrite <- (base64_encode_app (length all / 3) (firstn n2 all) (skipn n2 all))
    by (rewrite length_firstn; lia).
  rewrite firstn_skipn. unfold all.
  rewrite <- (base64_encode_app (length out / 3) (firstn n1 out))
    by (rewrite length_firstn; lia).
  rewrite app_assoc, firstn_skipn. reflexivity.
Qed.

End Base64Facts.
(** ** UTF-8 *)

Section Utf8Facts.
Import Utf8.

Local Ltac Zify.zify_post_hook ::= Z.to_euclidean_division_equations.

Lemma decoder_eqb_eq (d1 d2 : decoder) : decoder_eqb d1 d2 = true -> d1 = d2.
Proof.
  destruct d1, d2. unfold decoder_eqb. cbn [code_point needed lower upper].
  intros H. repeat (apply andb_prop in H; destruct H as [H ?]).
  repeat match goal with K : (_ =? _)%N = true |- _ => apply N.eqb_eq in K end.
  subst. reflexivity.
Qed.

Lemma units_eqb_eq (s t : jsstring) : units_eqb s t = true -> s = t.
Proof.
  revert t. induction s as [|x s IH]; intros [|y t] H;
    try reflexivity; try discriminate H.
  cbn [units_eqb] in H. apply andb_prop in H. destruct H as [H1 H2].
  apply N.eqb_eq in H1. subst. f_equal. apply IH. exact H2.
Qed.

Lemma reads_as_eq (buf : buffer) (d : decoder) (out : jsstring) :
  reads_as buf d out = true -> write init buf = (d, out).
Proof.
  unfold reads_as. destruct (write init buf) as [d' out']. intros H.
  apply andb_prop in H. destruct H as [H1 H2].
  apply decoder_eqb_eq in H1. apply units_eqb_eq in H2. subst. reflexivity.
Qed.

Lemma utf8_write_app (a b : buffer) :
  forall d : decoder,
    write d (a ++ b) =
    let (d1, o1) := write d a in
    let (d2, o2) := write d1 b in
    (d2, o1 ++ o2).
Proof.
  induction a as [|x a IH]; intros d; cbn [app write].
  - destruct (write d b). reflexivity.
  - destruct (step d x) as [d1 o1]. rewrite IH.
    destruct (write d1 a) as [d2 o2]. destruct (write d2 b) as [d3 o3].
    rewrite app_assoc. reflexivity.
Qed.

(** Every code unit that is not a surrogate is read back as itself. *)
Lemma utf8_write_encode_bmp (u : N) :
  (u < 0x10000)%N -> is_high_surrogate u = false -> is_low_surrogate u = false ->
  write init (encode_code_point u) = (init, [u]).
Proof.
  intros Hu Hh Hl.
  assert (K : check_bmp u = true).
  { apply (forall_range_sound check_bmp (N.to_nat 65536) 0).
    - vm_compute. reflexivity.
    - lia. }
  unfold check_bmp in K. rewrite Hh, Hl in K. cbn [orb] in K.
  apply reads_as_eq. exact K.
Qed.

Lemma step_continue (c k q : N) :
  (q < 64)%N -> k <> 0%N ->
  step (Decoder c k 0x80 0xBF) (byte_of_N (0x80 + q)) =
  if (k =? 1)%N then (init, units_of_code_point (c * 64 + q))
  else (Decoder (c * 64 + q) (k - 1) 0x80 0xBF, []).
Proof.
  intros Hq Hk. unfold step. cbn [needed lower upper code_point].
  rewrite to_N_byte_of_N by lia.
  rewrite (proj2 (N.eqb_neq k 0) Hk).
  rewrite (proj2 (N.leb_le 0x80 (0x80 + q))) by lia.
  rewrite (proj2 (N.leb_le (0x80 + q) 0xBF)) by lia.
  cbn [andb]. replace (0x80 + q - 0x80)%N with q by lia. reflexivity.
Qed.

(** Every code point beyond the BMP is read back as its surrogate pair. *)
Lemma utf8_write_encode_astral (cp : N) :
  (0x10000 <= cp < 0x110000)%N ->
  write init (encode_code_point cp) = (init, units_of_code_point cp).
Proof.
  intros Hcp. unfold encode_code_point.
  rewrite (proj2 (N.ltb_ge cp 0x80)) by lia.
  rewrite (proj2 (N.ltb_ge cp 0x800)) by lia.
  rewrite (proj2 (N.ltb_ge cp 0x10000)) by lia.
  set (hp := (cp / 4096)%N).
  assert (Hhp : (16 <= hp < 16 + N.of_nat 256)%N) by (unfold hp; lia).
  assert (K : check_lead hp = true).
  { apply (forall_range_sound check_lead 256 16); [|exact Hhp].
    vm_compute. reflexivity. }
  apply reads_as_eq in K.
  replace (cp / 262144)%N with (hp / 64)%N by (unfold hp; lia).
  change [byte_of_N (0xF0 + hp / 64); byte_of_N (0x80 + hp mod 64);
          byte_of_N (0x80 + (cp / 64) mod 64); byte_of_N (0x80 + cp mod 64)]
    with ([byte_of_N (0xF0 + hp / 64); byte_of_N (0x80 + hp mod 64)]
            ++ [byte_of_N (0x80 + (cp / 64) mod 64); byte_of_N (0x80 + cp mod 64)]).
  rewrite utf8_write_app, K. cbn [write].
  rewrite (step_continue hp 2) by lia.
  change (2 =? 1)%N with false. change (2 - 1)%N with 1%N. cbv iota.
  rewrite (step_continue _ 1) by lia.
  change (1 =? 1)%N with true. cbv iota.
  replace ((hp * 64 + (cp / 64) mod 64) * 64 + cp mod 64)%N with cp.
  - cbn [app]. rewrite app_nil_r. reflexivity.
  - assert (E : hp = (cp / 64 / 64)%N).
    { unfold hp. change 4096%N with (64 * 64)%N.
      rewrite N.Div0.div_div. reflexivity. }
    rewrite E. generalize (cp / 64)%N (N.Div0.div_mod cp 64).
    intros b Hb. lia.
Qed.

Lemma units_of_pair (u v : N) :
  is_high_surrogate u = true -> is_low_surrogate v = true ->
  let cp := (0x10000 + (u - 0xD800) * 1024 + (v - 0xDC00))%N in
  (0x10000 <= cp < 0x110000)%N /\ units_of_code_point cp = [u; v].
Proof.
  intros Hu Hv cp. unfold is_high_surrogate, is_low_surrogate in Hu, Hv.
  apply andb_prop in Hu. destruct Hu as [Hu1 Hu2].
  apply andb_prop in Hv. destruct Hv as [Hv1 Hv2].
  apply N.leb_le in Hu1, Hv1. apply N.ltb_lt in Hu2, Hv2.
  assert (Hcp : (0x10000 <= cp < 0x110000)%N) by (unfold cp; lia).
  split; [exact Hcp|]. unfold units_of_code_point.
  rewrite (proj2 (N.ltb_ge cp 0x10000)) by lia.
  f_equal; [|f_equal]; unfold cp; lia.
Qed.

(** A well-formed string is read back from its encoding, and the decoder
    ends between two characters. *)
Lemma utf8_write_encode (s : jsstring) :
  isWellFormed s = true -> write init (encode s) = (init, s).
Proof.
  assert (G : forall n s, (length s <= n)%nat ->
                isWellFormed s = true -> write init (encode s) = (init, s)).
  { clear s. induction n as [|n IH]; intros s Hn Hwf.
    - destruct s; [reflexivity | cbn [length] in Hn; lia].
    - destruct s as [|u s]; [reflexivity|]. cbn [isWellFormed encode] in *.
      destruct (is_high_surrogate u) eqn:Hh.
      + destruct s as [|v s]; [discriminate Hwf|].
        apply andb_prop in Hwf. destruct Hwf as [Hl Hwf]. rewrite Hl.
        destruct (units_of_pair u v Hh Hl) as [Hcp Hunits].
        rewrite utf8_write_app, utf8_write_encode_astral by exact Hcp.
        rewrite IH by (cbn [length] in Hn; (exact Hwf || lia)).
        rewrite Hunits. reflexivity.
      + apply andb_prop in Hwf. destruct Hwf as [Hwf Hs].
        apply andb_prop in Hwf. destruct Hwf as [Hl Hu].
        apply negb_true_iff in Hl. apply N.ltb_lt in Hu. rewrite Hl.
        rewrite utf8_write_app, utf8_write_encode_bmp by assumption.
        rewrite IH by (cbn [length] in Hn; (exact Hs || lia)).
        reflexivity. }
  apply (G (length s)). lia.
Qed.

(** [Buffer.from(s).toString()] is [s] for every well-formed [s]. *)
Lemma utf8_decode_encode (s : jsstring) :
  isWellFormed s = true -> decode (encode s) = s.
Proof.
  intros H. unfold decode, finish. rewrite utf8_write_encode by exact H.
  cbn. apply app_nil_r.
Qed.

(** [update] followed by [final] reads the same text as one [toString]. *)
Lemma utf8_write_finish (a b : buffer) :
  (let (d, text) := write init a in text ++ finish d b) = decode (a ++ b).
Proof.
  unfold decode, finish. rewrite utf8_write_app.
  destruct (write init a) as [d1 o1]. destruct (write d1 b) as [d2 o2].
  rewrite app_assoc. reflexivity.
Qed.

End Utf8Facts.

(** ** [split] *)

Lemma split_no_sep (sep : N) (s : jsstring) :
  Forall (fun c => c <> sep) s -> split sep s = [s].
Proof.
  induction 1 as [|c s Hc _ IH]; [reflexivity|].
  cbn [split]. rewrite (proj2 (N.eqb_neq c sep) Hc), IH. reflexivity.
Qed.

Lemma split_app_sep (sep : N) (a b : jsstring) :
  Forall (fun c => c <> sep) a ->
  split sep (a ++ sep :: b) = a :: split sep b.
Proof.
  induction 1 as [|c s Hc _ IH]; cbn [app split].
  - rewrite N.eqb_refl. reflexivity.
  - rewrite (proj2 (N.eqb_neq c sep) Hc), IH. reflexivity.
Qed.

Lemma split_not_nil (sep : N) (s : jsstring) : split sep s <> [].
Proof.
  destruct s as [|c s]; cbn [split]; [discriminate|].
  destruct (c =? sep)%N; [discriminate|].
  destruct (split sep s); discriminate.
Qed.

(** ** [encrypt] and [decrypt] against the reference *)

Section HelperFacts.
Import CryptoHelpers.

Lemma length_drawn_iv (w : entropy) : length (drawn_iv w) = 16%nat.
Proof. unfold drawn_iv. rewrite length_map, length_seq. reflexivity. Qed.

Lemma encrypt_spec (key plaintext : jsstring) (w : entropy) :
  length (Utf8.encode key) = 32%nat ->
  encrypt key plaintext w =
  (Ok (Base64.encode (drawn_iv w) ++ [colon]
         ++ Base64.encode
              (Cbc.encrypt (Utf8.encode key) (drawn_iv w) (Utf8.encode plaintext))),
   advance 16 w).
Proof.
  intros Hkey. unfold encrypt, bind, randomBytes, lift, ret.
  unfold Buffer.from, Buffer.toString_base64. fold (drawn_iv w).
  unfold Crypto.createCipheriv, Crypto.check_key_iv.
  change (String.eqb ALGORITHM "aes-256-cbc") with true.
  rewrite length_drawn_iv, Hkey. cbn [Nat.eqb negb].
  unfold Crypto.cipher_update, Crypto.cipher_final.
  cbn [Crypto.cipher_ctx Crypto.cipher_decoder].
  pose proof (evp_encrypt_stream (Utf8.encode key) (drawn_iv w)
                (Utf8.encode plaintext)) as E.
  destruct (Evp.EncryptUpdate _ _) as [out ctx'].
  pose proof (base64_write_finish out (Evp.EncryptFinal ctx')) as B.
  destruct (Base64.write [] out) as [held text].
  cbn [Crypto.cipher_ctx Crypto.cipher_decoder].
  rewrite B, E. reflexivity.
Qed.

Lemma decrypt_spec (key payload : jsstring) (w : entropy) :
  decrypt key payload w =
  (decrypt_parts (Utf8.encode key)
     (Base64.decode (hd [] (split colon payload)))
     (option_map Base64.decode (nth_error (split colon payload) 1)),
   w).
Proof.
  unfold decrypt, decrypt_parts, bind, lift, ret.
  unfold Buffer.from, Buffer.from_base64.
  set (iv := Base64.decode (hd [] (split colon payload))).
  set (k := Utf8.encode key).
  unfold Crypto.createDecipheriv, Crypto.check_key_iv.
  change (String.eqb ALGORITHM "aes-256-cbc") with true. cbn [negb].
  destruct (negb (length iv =? 16)%nat); [reflexivity|].
  destruct (negb (length k =? 32)%nat); [reflexivity|].
  destruct (nth_error (split colon payload) 1) as [data|]; [|reflexivity].
  cbn [option_map]. unfold Crypto.decipher_update, Crypto.decipher_final.
  cbn [Crypto.decipher_ctx Crypto.decipher_decoder].
  set (c := Base64.decode data).
  destruct ((length c =? 0)%nat || negb (length c mod 16 =? 0)%nat) eqn:Hc.
  - assert (Hm : (length c mod 16 <> 0)%nat \/ c = []).
    { apply orb_true_iff in Hc. destruct Hc as [Hc | Hc].
      - right. apply Nat.eqb_eq in Hc. apply length_zero_iff_nil. exact Hc.
      - left. apply negb_true_iff, Nat.eqb_neq in Hc. exact Hc. }
    pose proof (evp_decrypt_misaligned k iv c Hm) as E.
    destruct (Evp.DecryptUpdate (Evp.init k iv) c) as [out ctx'].
    cbn [snd] in E.
    destruct (Utf8.write Utf8.init out) as [d' text].
    cbn [Crypto.decipher_ctx Crypto.decipher_decoder].
    rewrite E. reflexivity.
  - apply orb_false_iff in Hc. destruct Hc as [Hc0 Hc16].
    apply Nat.eqb_neq in Hc0. apply negb_false_iff, Nat.eqb_eq in Hc16.
    assert (Hlen : length c = (16 * S (length c / 16 - 1))%nat).
    { pose proof (Nat.div_mod_eq (length c) 16). lia. }
    destruct (evp_decrypt_stream k iv c _ Hlen) as (ctx' & EU & EF).
    rewrite EU.
    unfold Cbc.decrypt, Cbc.unpad.
    set (dec := fst (Evp.cbc_decrypt_blocks (AES.key_expansion k) iv (chunks 16 c))) in *.
    pose proof (fun t => utf8_write_finish (firstn (length dec - 16) dec) t) as U.
    destruct (Utf8.write Utf8.init (firstn (length dec - 16) dec)) as [d' text].
    cbn [Crypto.decipher_ctx Crypto.decipher_decoder].
    rewrite EF.
    destruct (Evp.unpad_block (skipn (length dec - 16) dec)) as [t|].
    + rewrite U. reflexivity.
    + reflexivity.
Qed.

End HelperFacts.

(** ** Tokens *)

Section TokenFacts.
Import CryptoHelpers.

Lemma no_colon (buf : buffer) : Forall (fun c => c <> colon) (Base64.encode buf).
Proof.
  eapply Forall_impl; [|apply base64_encode_plain].
  intros c [H _]. exact H.
Qed.

Lemma split_token (iv64 ct64 : jsstring) :
  Forall (fun c => c <> colon) iv64 -> Forall (fun c => c <> colon) ct64 ->
  split colon (iv64 ++ [colon] ++ ct64) = [iv64; ct64].
Proof.
  intros Hi Hc. cbn [app]. rewrite split_app_sep by exact Hi.
  rewrite split_no_sep by exact Hc. reflexivity.
Qed.

(** A token built from an IV and a ciphertext is taken apart again. *)
Lemma decrypt_token (key : jsstring) (iv ct : buffer) (w : entropy) :
  decrypt key (Base64.encode iv ++ [colon] ++ Base64.encode ct) w =
  (decrypt_parts (Utf8.encode key) iv (Some ct), w).
Proof.
  rewrite decrypt_spec, split_token by apply no_colon.
  cbn [hd nth_error option_map]. rewrite !base64_decode_encode. reflexivity.
Qed.

Lemma decrypt_parts_whole (key iv ct : buffer) (k : nat) :
  length key = 32%nat -> length iv = 16%nat -> length ct = (16 * S k)%nat ->
  decrypt_parts key iv (Some ct) =
  match Cbc.decrypt key iv ct with
  | Some m => Ok (Utf8.decode m)
  | None => Throw ERR_OSSL_BAD_DECRYPT
  end.
Proof.
  intros Hk Hi Hc. unfold decrypt_parts. rewrite Hk, Hi, Hc. cbn [Nat.eqb negb].
  replace ((16 * S k) mod 16)%nat with 0%nat
    by (symmetry; rewrite Nat.mul_comm; apply Nat.Div0.mod_mul).
  replace (16 * S k =? 0)%nat with false by (symmetry; apply Nat.eqb_neq; lia).
  reflexivity.
Qed.

Lemma encrypt_bad_key (key s : jsstring) (w : entropy) :
  length (Utf8.encode key) <> 32%nat ->
  encrypt key s w = (Throw ERR_CRYPTO_INVALID_KEYLEN, advance 16 w).
Proof.
  intros Hkey. unfold encrypt, bind, randomBytes, lift.
  unfold Buffer.from. fold (drawn_iv w).
  unfold Crypto.createCipheriv, Crypto.check_key_iv.
  change (String.eqb ALGORITHM "aes-256-cbc") with true.
  rewrite length_drawn_iv. cbn [Nat.eqb negb].
  rewrite (proj2 (Nat.eqb_neq _ _) Hkey). reflexivity.
Qed.

Lemma encrypt_state (key s : jsstring) (w : entropy) :
  snd (encrypt key s w) = advance 16 w.
Proof.
  destruct (Nat.eq_dec (length (Utf8.encode key)) 32) as [H | H].
  - rewrite encrypt_spec by exact H. reflexivity.
  - rewrite encrypt_bad_key by exact H. reflexivity.
Qed.

Lemma encrypt_same_iv (key s : jsstring) (w1 w2 : entropy) :
  drawn_iv w1 = drawn_iv w2 ->
  fst (encrypt key s w1) = fst (encrypt key s w2).
Proof.
  intros Hiv. destruct (Nat.eq_dec (length (Utf8.encode key)) 32) as [H | H].
  - rewrite !encrypt_spec by exact H. cbn [fst]. rewrite Hiv. reflexivity.
  - rewrite !encrypt_bad_key by exact H. reflexivity.
Qed.

Lemma decrypt_parts_bad_key (key iv : buffer) (data : option buffer) :
  length key <> 32%nat ->
  decrypt_parts key iv data =
  if (length iv =? 16)%nat then Throw ERR_CRYPTO_INVALID_KEYLEN
  else Throw ERR_CRYPTO_INVALID_IV.
Proof.
  intros Hkey. unfold decrypt_parts.
  destruct (length iv =? 16)%nat; cbn [negb]; [|reflexivity].
  rewrite (proj2 (Nat.eqb_neq _ _) Hkey). reflexivity.
Qed.

Lemma cbc_decrypt_blocks_app (rks : list buffer) (bs1 bs2 : list buffer) :
  forall iv : buffer,
    Evp.cbc_decrypt_blocks rks iv (bs1 ++ bs2) =
    let (o1, iv1) := Evp.cbc_decrypt_blocks rks iv bs1 in
    let (o2, iv2) := Evp.cbc_decrypt_blocks rks iv1 bs2 in
    (o1 ++ o2, iv2).
Proof.
  induction bs1 as [|b bs1 IH]; intros iv; cbn [app Evp.cbc_decrypt_blocks].
  - destruct (Evp.cbc_decrypt_blocks rks iv bs2). reflexivity.
  - rewrite IH.
    destruct (Evp.cbc_decrypt_blocks rks b bs1) as [o1 iv1].
    destruct (Evp.cbc_decrypt_blocks rks iv1 bs2) as [o2 iv2].
    rewrite app_assoc. reflexivity.
Qed.

(** The padding check looks at the last two ciphertext blocks only. *)
Lemma unpad_last_two (key iv a b1 b2 : buffer) (k : nat) :
  length a = (16 * k)%nat -> length b1 = 16%nat -> length b2 = 16%nat ->
  let dec :=
    fst (Evp.cbc_decrypt_blocks (AES.key_expansion key) iv
           (chunks 16 (a ++ b1 ++ b2))) in
  skipn (length dec - 16) dec
  = AES.xor_bytes (AES.decrypt_block (AES.key_expansion key) b2) b1.
Proof.
  intros Ha H1 H2 dec.
  assert (Hlen : length dec = length (a ++ b1 ++ b2)).
  { apply (length_cbc_decrypt_blocks _ (k + 2)).
    rewrite !length_app. lia. }
  unfold dec in *. clear dec.
  rewrite (chunks_app _ 16 k) in * by (lia || exact Ha).
  rewrite (chunks_app_block _ 16 b1 b2) in * by (lia || exact H1).
  rewrite (chunks_block _ 16 b2) in * by (lia || exact H2).
  rewrite cbc_decrypt_blocks_app in *.
  destruct (Evp.cbc_decrypt_blocks (AES.key_expansion key) iv (chunks 16 a))
    as [o1 iv1].
  cbn [Evp.cbc_decrypt_blocks fst] in *. rewrite app_nil_r in *.
  rewrite !length_app, !length_xor_bytes in *.
  rewrite !length_decrypt_block in * by assumption.
  rewrite app_assoc.
  rewrite skipn_app.
  replace (length o1 + (16 + 16) - 16)%nat
    with (length (o1 ++ AES.xor_bytes
                    (AES.decrypt_block (AES.key_expansion key) b1) iv1))
    by (rewrite length_app, length_xor_bytes, length_decrypt_block by assumption; lia).
  rewrite skipn_all, Nat.sub_diag. reflexivity.
Qed.

(** Decryption succeeds on any ciphertext that shares its last two blocks
    with one on which it succeeds. *)
Lemma cbc_decrypt_same_tail (key iv iv' c c' : buffer) (k : nat) :
  length c = (16 * (k + 2))%nat -> length c' = length c ->
  skipn (length c - 32) c' = skipn (length c - 32) c ->
  Cbc.decrypt key iv c <> None -> Cbc.decrypt key iv' c' <> None.
Proof.
  intros Hc Hc' Htail.
  assert (G : forall (x v : buffer), length x = length c ->
            skipn (length c - 32) x = skipn (length c - 32) c ->
            let dec := fst (Evp.cbc_decrypt_blocks (AES.key_expansion key) v
                              (chunks 16 x)) in
            skipn (length dec - 16) dec =
            AES.xor_bytes
              (AES.decrypt_block (AES.key_expansion key)
                 (skipn 16 (skipn (length c - 32) c)))
              (firstn 16 (skipn (length c - 32) c))).
  { intros x v Hx Hxt.
    rewrite <- (firstn_skipn (length c - 32) x).
    rewrite <- (firstn_skipn 16 (skipn (length c - 32) x)).
    rewrite Hxt.
    apply (unpad_last_two key v _ _ _ k).
    - rewrite length_firstn, Hx. lia.
    - rewrite length_firstn, length_skipn. lia.
    - rewrite !length_skipn. lia. }
  pose proof (G c iv eq_refl eq_refl) as G1.
  pose proof (G c' iv' Hc' Htail) as G2.
  unfold Cbc.decrypt, Cbc.unpad. cbv zeta in G1, G2. rewrite G1, G2.
  destruct (Evp.unpad_block _); [discriminate | congruence].
Qed.

(** Under a key of 32 bytes, the token [encrypt] makes of a well-formed [s]
    with the IV drawn from [w] decrypts to [s]. *)
Lemma decrypt_fresh_token (key s : jsstring) (w w' : entropy) :
  length (Utf8.encode key) = 32%nat ->
  Utf8.isWellFormed s = true ->
  decrypt key
    (Base64.encode (drawn_iv w) ++ [colon]
       ++ Base64.encode (Cbc.encrypt (Utf8.encode key) (drawn_iv w) (Utf8.encode s)))
    w'
  = (Ok s, w').
Proof.
  intros Hkey Hs. rewrite decrypt_token.
  rewrite (decrypt_parts_whole _ _ _ (length (Utf8.encode s) / 16) Hkey
             (length_drawn_iv w)).
  - rewrite cbc_decrypt_encrypt by apply length_drawn_iv.
    rewrite utf8_decode_encode by exact Hs. reflexivity.
  - rewrite length_cbc_encrypt. lia.
Qed.

(** The start-up check lets through exactly the strings of 32 code units. *)
Lemma module_init_ok_iff (env : option jsstring) (key : jsstring) :
  module_init env = Ok key <-> env = Some key /\ length key = 32%nat.
Proof.
  unfold module_init. destruct env as [k|].
  - destruct (length k =? 32)%nat eqn:E.
    + apply Nat.eqb_eq in E. rewrite E. cbn [Nat.eqb orb negb].
      split; [intros H | intros [H _]]; [split|]; congruence.
    + rewrite orb_true_r. apply Nat.eqb_neq in E.
      split; [discriminate | intros [H L]]. congruence.
  - split; [discriminate | intros [H _]; discriminate H].
Qed.

(** An ASCII string has as many bytes as code units, so for ASCII keys the
    start-up check does settle the length of the key. *)
Lemma utf8_length_ascii (s : jsstring) :
  Forall (fun c => (c < 0x80)%N) s -> length (Utf8.encode s) = length s.
Proof.
  induction 1 as [|c s Hc _ IH]; [reflexivity|].
  cbn [Utf8.encode]. unfold Utf8.is_high_surrogate, Utf8.is_low_surrogate.
  rewrite (proj2 (N.leb_gt 0xD800 c)) by lia.
  rewrite (proj2 (N.leb_gt 0xDC00 c)) by lia.
  cbn [andb]. unfold Utf8.encode_code_point.
  rewrite (proj2 (N.ltb_lt c 0x80)) by exact Hc.
  cbn [app length]. rewrite IH. reflexivity.
Qed.

End TokenFacts.

(** * The properties stated for the cipher *)

Section ClaimTheorems.
Import CryptoHelpers.

(** C1. Round trip: for every well-formed string [s] (the empty string and
    strings with multi-byte characters included) and every key of 32
    bytes, decrypting what [encrypt] returned gives [s] back. *)
Theorem C1_decrypt_encrypt (key s : jsstring) (w : entropy) :
  length (Utf8.encode key) = 32%nat ->
  Utf8.isWellFormed s = true ->
  (token <- encrypt key s ;; decrypt key token) w = (Ok s, advance 16 w).
Proof.
  intros Hkey Hs. unfold bind at 1. rewrite encrypt_spec by exact Hkey.
  apply decrypt_fresh_token; assumption.
Qed.

Lemma C1_witness :
  (token <- encrypt key1 accented ;; decrypt key1 token) w0
  = (Ok accented, advance 16 w0)
  /\ (token <- encrypt key1 [] ;; decrypt key1 token) w0 = (Ok [], advance 16 w0).
Proof.
  split.
  - apply (C1_decrypt_encrypt key1 accented w0); reflexivity.
  - apply (C1_decrypt_encrypt key1 [] w0); reflexivity.
Defined.




(** C3, evaluated. The start-up check measures [ENCRYPTION_KEY.length], which
    counts UTF-16 code units: a key of 32 code units and 33 bytes passes it
    and then makes [encrypt] throw on the key length, and a key of 32
    bytes and 31 code units is turned away. *)
Theorem C3_startup_counts_code_units :
  module_init (Some key_accent) = Ok key_accent
  /\ length (Utf8.encode key_accent) = 33%nat
  /\ fst (encrypt key_accent secret w0) = Throw ERR_CRYPTO_INVALID_KEYLEN
  /\ length (Utf8.encode key_short) = 32%nat
  /\ module_init (Some key_short) = Throw ConfigError.
Proof. repeat split; vm_compute; reflexivity. Qed.

(** C4. With a key of 32 bytes, the token is [base64(iv)], a colon, and
    [base64(ciphertext)]: the IV is the 16 bytes this call drew from the
    random source, the ciphertext is the CBC encryption of the padded
    UTF-8 bytes and nothing more, and the text is plain ASCII that
    splits into exactly these two independently decodable parts. *)
Theorem C4_token_format (key s : jsstring) (w : entropy) :
  length (Utf8.encode key) = 32%nat ->
  let iv := map w (seq 0 16) in
  let ciphertext := Cbc.encrypt (Utf8.encode key) iv (Utf8.encode s) in
  let token := Base64.encode iv ++ [colon] ++ Base64.encode ciphertext in
  encrypt key s w = (Ok token, advance 16 w)
  /\ length iv = 16%nat
  /\ length ciphertext = (16 * (length (Utf8.encode s) / 16 + 1))%nat
  /\ Forall (fun c => (c < 128)%N) token
  /\ split colon token = [Base64.encode iv; Base64.encode ciphertext]
  /\ Base64.decode (Base64.encode iv) = iv
  /\ Base64.decode (Base64.encode ciphertext) = ciphertext.
Proof.
  intros Hkey iv ciphertext token.
  split; [apply (encrypt_spec key s w Hkey)|].
  split; [apply length_drawn_iv|].
  split; [apply length_cbc_encrypt|].
  split.
  - unfold token. apply Forall_app. split; [|apply Forall_app; split].
    + eapply Forall_impl; [|apply base64_encode_plain]. intros c [_ H]. exact H.
    + repeat constructor.
    + eapply Forall_impl; [|apply base64_encode_plain]. intros c [_ H]. exact H.
  - split; [apply split_token; apply no_colon|].
    split; apply base64_decode_encode.
Qed.

Lemma C4_witness : encrypt key1 secret w0 = (Ok token1, advance 16 w0).
Proof.
  exact (proj1 (C4_token_format key1 secret w0 eq_refl)).
Defined.

(** C5. Two calls on the same well-formed [s] whose IVs differ return
    different tokens, and each token decrypts to [s] under the key. *)
Theorem C5_fresh_iv_fresh_token (key s : jsstring) (w1 w2 : entropy) :
  length (Utf8.encode key) = 32%nat ->
  Utf8.isWellFormed s = true ->
  drawn_iv w1 <> drawn_iv w2 ->
  exists t1 t2 : jsstring,
    fst (encrypt key s w1) = Ok t1 /\ fst (encrypt key s w2) = Ok t2
    /\ t1 <> t2
    /\ (forall w, fst (decrypt key t1 w) = Ok s)
    /\ (forall w, fst (decrypt key t2 w) = Ok s).
Proof.
  intros Hkey Hs Hiv.
  assert (D : forall w w', fst (decrypt key
                (Base64.encode (drawn_iv w) ++ [colon]
                   ++ Base64.encode (Cbc.encrypt (Utf8.encode key) (drawn_iv w)
                                       (Utf8.encode s))) w') = Ok s).
  { intros w w'. rewrite decrypt_fresh_token by assumption. reflexivity. }
  rewrite !encrypt_spec by exact Hkey. cbn [fst].
  eexists. eexists. split; [reflexivity|]. split; [reflexivity|].
  split; [|split; intros w; apply D].
  intros E. apply Hiv.
  apply (f_equal (fun t => Base64.decode (hd [] (split colon t)))) in E.
  rewrite !split_token in E by apply no_colon. cbn [hd] in E.
  rewrite !base64_decode_encode in E. exact E.
Qed.

Lemma C5_witness :
  exists t1 t2 : jsstring,
    fst (encrypt key1 accented w0) = Ok t1
    /\ fst (encrypt key1 accented (advance 16 w0)) = Ok t2
    /\ t1 <> t2
    /\ (forall w, fst (decrypt key1 t1 w) = Ok accented)
    /\ (forall w, fst (decrypt key1 t2 w) = Ok accented).
Proof.
  apply (C5_fresh_iv_fresh_token key1 accented w0 (advance 16 w0));
    [reflexivity | reflexivity | vm_compute; discriminate].
Defined.


(** C6 fails as stated: a token made under one key passes the padding check
    under another, so [decrypt] returns text instead of failing. *)
Lemma C6_counterexample :
  key1 <> key2
  /\ length (Utf8.encode key1) = 32%nat /\ length (Utf8.encode key2) = 32%nat
  /\ fst (encrypt key1 secret w0) = Ok token1
  /\ is_ok (fst (decrypt key2 token1 w0)) = true.
Proof.
  split; [discriminate|]. split; [reflexivity|]. split; [reflexivity|].
  split; vm_compute; reflexivity.
Qed.

(** C6, as the code has it. For keys [k1] and [k2] of 32 bytes, distinct or
    not, decrypting under [k2] a token made under [k1] fails with a
    bad-decrypt error exactly when the CBC decryption under [k2] does not
    end in valid padding; when it does, [decrypt] returns the UTF-8 reading
    of the unpadded bytes. *)
Theorem C6_wrong_key (k1 k2 s : jsstring) (w w' : entropy) :
  length (Utf8.encode k1) = 32%nat ->
  length (Utf8.encode k2) = 32%nat ->
  exists token : jsstring,
    fst (encrypt k1 s w) = Ok token
    /\ fst (decrypt k2 token w') =
       match Cbc.decrypt (Utf8.encode k2) (drawn_iv w)
               (Cbc.encrypt (Utf8.encode k1) (drawn_iv w) (Utf8.encode s)) with
       | Some m => Ok (Utf8.decode m)
       | None => Throw ERR_OSSL_BAD_DECRYPT
       end.
Proof.
  intros H1 H2. rewrite encrypt_spec by exact H1. cbn [fst].
  eexists. split; [reflexivity|].
  rewrite decrypt_token. cbn [fst].
  apply (decrypt_parts_whole _ _ _ (length (Utf8.encode s) / 16) H2
           (length_drawn_iv w)).
  rewrite length_cbc_encrypt. lia.
Qed.

Lemma C6_witness :
  exists token : jsstring,
    fst (encrypt key1 secret w0) = Ok token
    /\ fst (decrypt key2 token w0) =
       match Cbc.decrypt (Utf8.encode key2) (drawn_iv w0)
               (Cbc.encrypt (Utf8.encode key1) (drawn_iv w0) (Utf8.encode secret)) with
       | Some m => Ok (Utf8.decode m)
       | None => Throw ERR_OSSL_BAD_DECRYPT
       end.
Proof. apply (C6_wrong_key key1 key2 secret w0 w0); reflexivity. Defined.

(** C7 fails as stated: one character of the ciphertext segment is changed,
    which changes one bit of the first ciphertext byte, and [decrypt]
    still succeeds. *)
Lemma C7_counterexample :
  length (Utf8.encode key1) = 32%nat
  /\ fst (encrypt key1 secret w0) = Ok token1
  /\ token1_flipped <> token1
  /\ is_ok (fst (decrypt key1 token1_flipped w0)) = true.
Proof.
  split; [reflexivity|]. split; [vm_compute; reflexivity|].
  split; [discriminate|]. vm_compute. reflexivity.
Qed.

(** C7, as the code has it. Change one byte of the ciphertext of a token:
    [decrypt] fails with a bad-decrypt error exactly when the CBC decryption
    of the changed ciphertext does not end in valid padding, and returns
    the UTF-8 reading of the unpadded bytes otherwise; a change before the
    last two blocks always goes unnoticed. *)
Theorem C7_tampered_ciphertext (key s : jsstring) (w w' : entropy)
    (pre post : buffer) (b b' : byte) :
  length (Utf8.encode key) = 32%nat ->
  Cbc.encrypt (Utf8.encode key) (drawn_iv w) (Utf8.encode s) = pre ++ b :: post ->
  b' <> b ->
  let tampered :=
    Base64.encode (drawn_iv w) ++ [colon] ++ Base64.encode (pre ++ b' :: post) in
  fst (decrypt key tampered w') =
    match Cbc.decrypt (Utf8.encode key) (drawn_iv w) (pre ++ b' :: post) with
    | Some m => Ok (Utf8.decode m)
    | None => Throw ERR_OSSL_BAD_DECRYPT
    end
  /\ ((32 <= length post)%nat -> is_ok (fst (decrypt key tampered w')) = true).
Proof.
  intros Hkey Hct Hb tampered.
  pose proof (length_cbc_encrypt (Utf8.encode key) (drawn_iv w) (Utf8.encode s))
    as Hlen.
  rewrite Hct in Hlen.
  assert (Hlen' : length (pre ++ b' :: post)
                  = (16 * S (length (Utf8.encode s) / 16))%nat)
    by (rewrite length_app in *; cbn [length] in *; lia).
  assert (E : fst (decrypt key tampered w') =
              match Cbc.decrypt (Utf8.encode key) (drawn_iv w) (pre ++ b' :: post) with
              | Some m => Ok (Utf8.decode m)
              | None => Throw ERR_OSSL_BAD_DECRYPT
              end).
  { unfold tampered. rewrite decrypt_token. cbn [fst].
    apply (decrypt_parts_whole _ _ _ _ Hkey (length_drawn_iv w) Hlen'). }
  split; [exact E|]. intros Hpost. rewrite E.
  assert (N : Cbc.decrypt (Utf8.encode key) (drawn_iv w) (pre ++ b' :: post) <> None).
  { apply (cbc_decrypt_same_tail (Utf8.encode key) (drawn_iv w) (drawn_iv w)
             (pre ++ b :: post) _ (length (Utf8.encode s) / 16 - 1)).
    - rewrite length_app in *. cbn [length] in *. lia.
    - rewrite !length_app. reflexivity.
    - rewrite !skipn_app.
      rewrite length_app. cbn [length].
      replace (length pre + S (length post) - 32 - length pre)%nat
        with (S (length post - 32)) by lia.
      rewrite !(skipn_all2 pre) by lia. reflexivity.
    - rewrite <- Hct, cbc_decrypt_encrypt by apply length_drawn_iv. discriminate. }
  destruct (Cbc.decrypt _ _ _); [reflexivity | congruence].
Qed.


Lemma C7_witness :
  let ct := Cbc.encrypt (Utf8.encode key1) (drawn_iv w0) (Utf8.encode long_secret) in
  is_ok (fst (decrypt key1
                (Base64.encode (drawn_iv w0) ++ [colon]
                   ++ Base64.encode ([] ++ x00 :: tl ct)) w0)) = true.
Proof.
  intros ct.
  apply (proj2 (C7_tampered_ciphertext key1 long_secret w0 w0 [] (tl ct)
                  (hd x00 ct) x00 eq_refl
                  ltac:(vm_compute; reflexivity)
                  ltac:(vm_compute; discriminate))).
  vm_compute. lia.
Defined.

(** C9. [decrypt] reads the first two parts of the payload only: whatever
    follows a second [':'] changes nothing, so with such a tail a token
    made by [encrypt] still decrypts to its plaintext. *)
Theorem C9_extra_parts_ignored (key x : jsstring) (w : entropy) :
  (forall iv64 ct64 : jsstring,
     Forall (fun c => c <> colon) iv64 -> Forall (fun c => c <> colon) ct64 ->
     decrypt key (iv64 ++ [colon] ++ ct64 ++ [colon] ++ x) w
     = decrypt key (iv64 ++ [colon] ++ ct64) w)
  /\ (forall (s : jsstring) (w1 : entropy) (token : jsstring),
        length (Utf8.encode key) = 32%nat -> Utf8.isWellFormed s = true ->
        fst (encrypt key s w1) = Ok token ->
        fst (decrypt key token w) = Ok s
        /\ fst (decrypt key (token ++ [colon] ++ x) w) = Ok s).
Proof.
  assert (P1 : forall iv64 ct64 : jsstring,
     Forall (fun c => c <> colon) iv64 -> Forall (fun c => c <> colon) ct64 ->
     decrypt key (iv64 ++ [colon] ++ ct64 ++ [colon] ++ x) w
     = decrypt key (iv64 ++ [colon] ++ ct64) w).
  { intros iv64 ct64 Hi Hc. rewrite !decrypt_spec.
    rewrite (split_token iv64 ct64 Hi Hc). cbn [app].
    rewrite split_app_sep by exact Hi. rewrite split_app_sep by exact Hc.
    reflexivity. }
  split; [exact P1|].
  intros s w1 token Hkey Hs Ht.
  rewrite encrypt_spec in Ht by exact Hkey. cbn [fst] in Ht.
  assert (Et : token = Base64.encode (drawn_iv w1) ++ [colon]
                 ++ Base64.encode (Cbc.encrypt (Utf8.encode key) (drawn_iv w1)
                                     (Utf8.encode s))) by congruence.
  clear Ht. subst token.
  assert (D : fst (decrypt key
                (Base64.encode (drawn_iv w1) ++ [colon]
                   ++ Base64.encode (Cbc.encrypt (Utf8.encode key) (drawn_iv w1)
                                       (Utf8.encode s))) w) = Ok s).
  { rewrite decrypt_fresh_token by assumption. reflexivity. }
  split; [exact D|].
  rewrite <- !app_assoc. rewrite P1 by apply no_colon. exact D.
Qed.

Lemma C9_witness :
  fst (decrypt key1 (token1 ++ [colon] ++ js "v2:extra") w0) = Ok secret.
Proof.
  apply (proj2 (proj2 (C9_extra_parts_ignored key1 (js "v2:extra") w0)
                  secret w0 token1 eq_refl eq_refl
                  ltac:(vm_compute; reflexivity))).
Defined.

(** C10 fails as stated for [decrypt]: under a key of 32 code units and 33
    bytes, a payload whose first part does not decode to 16 bytes is turned
    away because of its IV, not because of the key. *)
Lemma C10_counterexample :
  length key_accent = 32%nat /\ length (Utf8.encode key_accent) = 33%nat
  /\ module_init (Some key_accent) = Ok key_accent
  /\ fst (decrypt key_accent (js "") w0) = Throw ERR_CRYPTO_INVALID_IV
  /\ fst (decrypt key_accent (js "") w0) <> Throw ERR_CRYPTO_INVALID_KEYLEN.
Proof.
  split; [reflexivity|]. split; [reflexivity|]. split; [reflexivity|].
  split; [vm_compute; reflexivity | vm_compute; discriminate].
Qed.

(** C10, as the code has it. A key of 32 code units whose UTF-8 encoding is
    longer than 32 bytes passes the start-up check; every [encrypt] then
    throws on the key length, and every [decrypt] fails: on the key
    length when the first part of the payload decodes to 16 bytes, on
    the IV otherwise. *)
Theorem C10_multibyte_key (key : jsstring) :
  length key = 32%nat ->
  (32 < length (Utf8.encode key))%nat ->
  module_init (Some key) = Ok key
  /\ (forall s w, fst (encrypt key s w) = Throw ERR_CRYPTO_INVALID_KEYLEN)
  /\ (forall payload w,
        fst (decrypt key payload w) =
        if (length (Base64.decode (hd [] (split colon payload))) =? 16)%nat
        then Throw ERR_CRYPTO_INVALID_KEYLEN
        else Throw ERR_CRYPTO_INVALID_IV).
Proof.
  intros Hlen Hbytes. split; [|split].
  - unfold module_init. rewrite Hlen. reflexivity.
  - intros s w. rewrite encrypt_bad_key by lia. reflexivity.
  - intros payload w. rewrite decrypt_spec. cbn [fst].
    apply decrypt_parts_bad_key. lia.
Qed.

Lemma C10_witness :
  module_init (Some key_accent) = Ok key_accent
  /\ (forall s w, fst (encrypt key_accent s w) = Throw ERR_CRYPTO_INVALID_KEYLEN)
  /\ (forall payload w,
        fst (decrypt key_accent payload w) =
        if (length (Base64.decode (hd [] (split colon payload))) =? 16)%nat
        then Throw ERR_CRYPTO_INVALID_KEYLEN
        else Throw ERR_CRYPTO_INVALID_IV).
Proof.
  apply (C10_multibyte_key key_accent); [reflexivity | vm_compute; lia].
Defined.

End ClaimTheorems.

(** * More about [encrypt] and [decrypt] *)

Section MoreHelperFacts.
Import CryptoHelpers.

Local Ltac Zify.zify_post_hook ::= Z.to_euclidean_division_equations.

Lemma utf8_write_replacement :
  Utf8.write Utf8.init (Utf8.encode_code_point Utf8.replacement)
  = (Utf8.init, [Utf8.replacement]).
Proof. apply utf8_write_encode_bmp; reflexivity. Qed.

(** Any string is read back from its encoding as its well-formed version. *)
Lemma utf8_write_encode_any (s : jsstring) :
  Forall (fun u => (u < 0x10000)%N) s ->
  Utf8.write Utf8.init (Utf8.encode s) = (Utf8.init, toWellFormed s).
Proof.
  assert (G : forall n s, (length s <= n)%nat ->
            Forall (fun u => (u < 0x10000)%N) s ->
            Utf8.write Utf8.init (Utf8.encode s) = (Utf8.init, toWellFormed s)).
  { clear s. induction n as [|n IH]; intros s Hn Hs.
    - destruct s; [reflexivity | cbn [length] in Hn; lia].
    - destruct s as [|u s]; [reflexivity|].
      inversion Hs as [|? ? Hu Hs']; subst.
      cbn [Utf8.encode toWellFormed].
      destruct (Utf8.is_high_surrogate u) eqn:Hh.
      + destruct s as [|v s]; [apply utf8_write_replacement|].
        destruct (Utf8.is_low_surrogate v) eqn:Hl.
        * inversion Hs' as [|? ? Hv Hs'']; subst.
          destruct (units_of_pair u v Hh Hl) as [Hcp Hunits].
          rewrite utf8_write_app, utf8_write_encode_astral by exact Hcp.
          rewrite IH by (cbn [length] in *; (exact Hs'' || lia)).
          rewrite Hunits. reflexivity.
        * rewrite utf8_write_app, utf8_write_replacement.
          rewrite IH by (cbn [length] in *; (exact Hs' || lia)).
          reflexivity.
      + destruct (Utf8.is_low_surrogate u) eqn:Hl.
        * rewrite utf8_write_app, utf8_write_replacement.
          rewrite IH by (cbn [length] in *; (exact Hs' || lia)).
          reflexivity.
        * rewrite utf8_write_app, utf8_write_encode_bmp by assumption.
          rewrite IH by (cbn [length] in *; (exact Hs' || lia)).
          reflexivity. }
  apply (G (length s)). lia.
Qed.

(** X1. Whatever the string, well-formed or not, decrypting what [encrypt]
    returned under a key of 32 bytes gives the string with every lone
    surrogate replaced by U+FFFD, and nothing else changed. *)
Theorem X1_round_trip_any_string (key s : jsstring) (w : entropy) :
  length (Utf8.encode key) = 32%nat ->
  Forall (fun u => (u < 0x10000)%N) s ->
  (token <- encrypt key s ;; decrypt key token) w
  = (Ok (toWellFormed s), advance 16 w).
Proof.
  intros Hkey Hs. unfold bind at 1. rewrite encrypt_spec by exact Hkey.
  rewrite decrypt_token.
  rewrite (decrypt_parts_whole _ _ _ (length (Utf8.encode s) / 16) Hkey
             (length_drawn_iv w)).
  - rewrite cbc_decrypt_encrypt by apply length_drawn_iv.
    unfold Utf8.decode, Utf8.finish. rewrite utf8_write_encode_any by exact Hs.
    cbn [Utf8.flush Utf8.needed Utf8.init N.eqb]. rewrite app_nil_r. reflexivity.
  - rewrite length_cbc_encrypt. lia.
Qed.

Lemma X1_witness :
  (token <- encrypt key1 [0x61; 0xD83D; 0x62; 0xDE00; 0xD83D; 0xDE00]%N ;;
   decrypt key1 token) w0
  = (Ok [0x61; 0xFFFD; 0x62; 0xFFFD; 0xD83D; 0xDE00]%N, advance 16 w0).
Proof.
  apply (X1_round_trip_any_string key1
           [0x61; 0xD83D; 0x62; 0xDE00; 0xD83D; 0xDE00]%N w0);
    [reflexivity | repeat constructor].
Defined.

Lemma base64_length (buf : buffer) :
  length (Base64.encode buf) = (4 * ((length buf + 2) / 3))%nat.
Proof.
  induction buf as [|a|a b|a b c l IH] using buffer_ind3; try reflexivity.
  cbn [Base64.encode length]. rewrite IH.
  replace (S (S (S (length l))) + 2)%nat with ((length l + 2) + 1 * 3)%nat by lia.
  rewrite Nat.div_add by lia. lia.
Qed.

(** X2. Under a key of 32 bytes the token of a plaintext of [n] UTF-8 bytes
    has [25 + 4 * ceil (16 * (n / 16 + 1) / 3)] characters: 24 for the IV,
    the colon, and the base64 text of [n / 16 + 1] blocks. It is never
    shorter than 49 characters and tells the length of the plaintext only
    up to the block it falls in. *)
Theorem X2_token_length (key s : jsstring) (w : entropy) :
  length (Utf8.encode key) = 32%nat ->
  exists token : jsstring,
    fst (encrypt key s w) = Ok token
    /\ length token
       = (25 + 4 * ((16 * (length (Utf8.encode s) / 16 + 1) + 2) / 3))%nat
    /\ (49 <= length token)%nat.
Proof.
  intros Hkey. rewrite encrypt_spec by exact Hkey. cbn [fst].
  eexists. split; [reflexivity|].
  rewrite !length_app, !base64_length, length_drawn_iv, length_cbc_encrypt.
  cbn [length]. change ((16 + 2) / 3)%nat with 6%nat.
  generalize (length (Utf8.encode s) / 16)%nat. intros q.
  assert (6 <= (16 * (q + 1) + 2) / 3)%nat
    by (apply Nat.div_le_lower_bound; lia).
  generalize dependent ((16 * (q + 1) + 2) / 3)%nat. intros d Hd. lia.
Qed.

Lemma X2_witness :
  exists token : jsstring,
    fst (encrypt key1 secret w0) = Ok token
    /\ length token
       = (25 + 4 * ((16 * (length (Utf8.encode secret) / 16 + 1) + 2) / 3))%nat
    /\ (49 <= length token)%nat.
Proof. apply (X2_token_length key1 secret w0). reflexivity. Defined.


Lemma sextets_skip (c : N) (s : jsstring) :
  Base64.uint8 c <> Base64.pad_char -> Base64.unbase64 c = None ->
  Base64.sextets (c :: s) = Base64.sextets s.
Proof.
  intros Hp Hu. cbn [Base64.sextets].
  rewrite Hu, (proj2 (N.eqb_neq _ _) Hp). reflexivity.
Qed.

Lemma sextets_cons_congr (x : N) (s t : jsstring) :
  Base64.sextets s = Base64.sextets t ->
  Base64.sextets (x :: s) = Base64.sextets (x :: t).
Proof.
  intros H. cbn [Base64.sextets]. rewrite H. reflexivity.
Qed.

Lemma uint8_uint8 (c : N) : Base64.uint8 (Base64.uint8 c) = Base64.uint8 c.
Proof. unfold Base64.uint8. apply N.Div0.mod_mod. Qed.

(** The reader sees a code unit as its low byte. *)
Lemma sextets_uint8 (c : N) (s : jsstring) :
  Base64.sextets (Base64.uint8 c :: s) = Base64.sextets (c :: s).
Proof.
  cbn [Base64.sextets]. unfold Base64.unbase64. rewrite !uint8_uint8.
  reflexivity.
Qed.

(** Two code units that the base64 reader cannot tell apart, neither of
    them [':'], can stand for each other anywhere in a payload: every
    part of the payload keeps its sextets. *)
Lemma split_swap (c c' : N) (a b : jsstring) :
  c <> colon -> c' <> colon ->
  (forall s, Base64.sextets (c :: s) = Base64.sextets (c' :: s)) ->
  map Base64.sextets (split colon (a ++ c :: b))
  = map Base64.sextets (split colon (a ++ c' :: b)).
Proof.
  intros Hc Hc' Hs. induction a as [|x a IH]; cbn [app].
  - cbn [split]. rewrite (proj2 (N.eqb_neq _ _) Hc), (proj2 (N.eqb_neq _ _) Hc').
    destruct (split colon b) as [|h t] eqn:E.
    + destruct (split_not_nil colon b E).
    + cbn [map]. rewrite Hs. reflexivity.
  - cbn [split]. destruct (x =? colon)%N.
    + cbn [map]. rewrite IH. reflexivity.
    + destruct (split colon (a ++ c :: b)) as [|h1 t1] eqn:E1;
        [destruct (split_not_nil colon _ E1)|].
      destruct (split colon (a ++ c' :: b)) as [|h2 t2] eqn:E2;
        [destruct (split_not_nil colon _ E2)|].
      cbn [map] in *. injection IH as Hh Ht.
      rewrite Ht, (sextets_cons_congr x h1 h2 Hh). reflexivity.
Qed.

(** A code unit that means nothing to the base64 reader, put anywhere in a
    payload, leaves every part of the payload with the same sextets. *)
Lemma split_skip (c : N) (a b : jsstring) :
  c <> colon -> Base64.uint8 c <> Base64.pad_char -> Base64.unbase64 c = None ->
  map Base64.sextets (split colon (a ++ c :: b))
  = map Base64.sextets (split colon (a ++ b)).
Proof.
  intros Hc Hp Hu. induction a as [|x a IH]; cbn [app].
  - cbn [split]. rewrite (proj2 (N.eqb_neq _ _) Hc).
    destruct (split colon b) as [|h t] eqn:E.
    + destruct (split_not_nil colon b E).
    + cbn [map]. rewrite sextets_skip by assumption. reflexivity.
  - cbn [split]. destruct (x =? colon)%N.
    + cbn [map]. rewrite IH. reflexivity.
    + destruct (split colon (a ++ c :: b)) as [|h1 t1] eqn:E1;
        [destruct (split_not_nil colon _ E1)|].
      destruct (split colon (a ++ b)) as [|h2 t2] eqn:E2;
        [destruct (split_not_nil colon _ E2)|].
      cbn [map] in *. injection IH as Hh Ht.
      rewrite Ht, (sextets_cons_congr x h1 h2 Hh). reflexivity.
Qed.

(** [decrypt] knows a payload by the sextets of its parts only. *)
Lemma decrypt_by_sextets (key p q : jsstring) (w : entropy) :
  map Base64.sextets (split colon p) = map Base64.sextets (split colon q) ->
  decrypt key p w = decrypt key q w.
Proof.
  intros E. rewrite !decrypt_spec.
  destruct (split colon p) as [|h1 [|d1 t1]];
    destruct (split colon q) as [|h2 [|d2 t2]];
    cbn [map] in E; try discriminate E; try reflexivity.
  - injection E as E1. unfold Base64.decode. cbn [hd nth_error option_map].
    rewrite E1. reflexivity.
  - injection E as E1 E2 _. unfold Base64.decode. cbn [hd nth_error option_map].
    rewrite E1, E2. reflexivity.
Qed.

(** Outside the separator, [decrypt] reads a payload by the low bytes of
    its code units: a unit that is not [':'] can be replaced by its low
    byte, unless that byte is [':']. *)
Lemma decrypt_reads_low_bytes (key a b : jsstring) (c : N) (w : entropy) :
  c <> colon -> Base64.uint8 c <> colon ->
  decrypt key (a ++ c :: b) w = decrypt key (a ++ Base64.uint8 c :: b) w.
Proof.
  intros Hc Hl. apply decrypt_by_sextets, split_swap; [exact Hc | exact Hl |].
  intros s. symmetry. apply sextets_uint8.
Qed.

(** A token whose first part is written with code units above 0xFF still
    decrypts, and a code unit above 0xFF whose low byte is a letter counts
    as that letter. *)
Example decrypt_low_byte_known :
  fst (decrypt key1 token1_wide w0) = Ok secret
  /\ fst (decrypt key1 token1_stray w0) = Throw ERR_OSSL_WRONG_FINAL_BLOCK_LENGTH
  /\ fst (decrypt key_accent token1_wide w0) = Throw ERR_CRYPTO_INVALID_KEYLEN.
Proof. repeat split; vm_compute; reflexivity. Qed.

(** X3. A code unit that is not [':'] and whose low byte is neither in the
    base64 alphabet (['-'] and ['_'] included) nor ['='] (a space, a line
    break, U+0120, ...) may be put anywhere in a payload: [decrypt]
    returns what it returns without it. *)
Theorem X3_stray_characters_ignored (key a b : jsstring) (c : N) (w : entropy) :
  c <> colon -> Base64.uint8 c <> Base64.pad_char -> Base64.unbase64 c = None ->
  decrypt key (a ++ c :: b) w = decrypt key (a ++ b) w.
Proof.
  intros Hc Hp Hu. apply decrypt_by_sextets, split_skip; assumption.
Qed.

Lemma X3_witness :
  decrypt key1 (js "AAECAwQFBgcICQoL" ++ 10%N :: js "DA0ODw==:KRhtJNff") w0
  = decrypt key1 (js "AAECAwQFBgcICQoL" ++ js "DA0ODw==:KRhtJNff") w0
  /\ decrypt key1 (js "AAECAwQFBgcICQoLDA0ODw==:KRhtJNff" ++ 0x120%N :: js "GHOS") w0
     = decrypt key1 (js "AAECAwQFBgcICQoLDA0ODw==:KRhtJNff" ++ js "GHOS") w0.
Proof.
  split.
  - apply (X3_stray_characters_ignored key1 (js "AAECAwQFBgcICQoL")
             (js "DA0ODw==:KRhtJNff") 10%N w0);
      [discriminate | discriminate | reflexivity].
  - apply (X3_stray_characters_ignored key1
             (js "AAECAwQFBgcICQoLDA0ODw==:KRhtJNff") (js "GHOS") 0x120%N w0);
      [discriminate | discriminate | reflexivity].
Defined.

(** X4. When [decrypt] succeeds, and only then: the key has 32 bytes, the
    first part of the payload decodes to 16 bytes, there is a second part,
    it decodes to a positive number of whole blocks, and their CBC
    decryption ends in valid padding; the result is the UTF-8 reading of
    the unpadded bytes. *)
Theorem X4_decrypt_succeeds_iff (key payload s : jsstring) (w : entropy) :
  fst (decrypt key payload w) = Ok s
  <->
  length (Utf8.encode key) = 32%nat
  /\ length (Base64.decode (hd [] (split colon payload))) = 16%nat
  /\ exists (data : jsstring) (m : buffer),
       nth_error (split colon payload) 1 = Some data
       /\ Base64.decode data <> []
       /\ (length (Base64.decode data) mod 16 = 0)%nat
       /\ Cbc.decrypt (Utf8.encode key)
            (Base64.decode (hd [] (split colon payload))) (Base64.decode data)
          = Some m
       /\ s = Utf8.decode m.
Proof.
  rewrite decrypt_spec. cbn [fst]. unfold decrypt_parts.
  set (iv := Base64.decode (hd [] (split colon payload))).
  split.
  - intros H.
    destruct (length iv =? 16)%nat eqn:Ei; cbn [negb] in H; [|discriminate H].
    destruct (length (Utf8.encode key) =? 32)%nat eqn:Ek; cbn [negb] in H;
      [|discriminate H].
    apply Nat.eqb_eq in Ei, Ek.
    destruct (nth_error (split colon payload) 1) as [data|]; [|discriminate H].
    cbn [option_map] in H.
    destruct (length (Base64.decode data) =? 0)%nat eqn:E0; cbn [orb] in H;
      [discriminate H|].
    destruct (length (Base64.decode data) mod 16 =? 0)%nat eqn:E16;
      cbn [negb] in H; [|discriminate H].
    apply Nat.eqb_neq in E0. apply Nat.eqb_eq in E16.
    destruct (Cbc.decrypt _ _ _) as [m|] eqn:Ec; [|discriminate H].
    split; [exact Ek|]. split; [exact Ei|]. exists data, m.
    split; [reflexivity|]. split.
    + intros Hnil. apply E0. rewrite Hnil. reflexivity.
    + split; [exact E16|]. split; [exact Ec | congruence].
  - intros (Ek & Ei & data & m & Hd & Hne & H16 & Hc & ->).
    rewrite Ei, Ek, Hd. cbn [Nat.eqb negb option_map].
    rewrite H16. cbn [Nat.eqb negb].
    replace (length (Base64.decode data) =? 0)%nat with false.
    + cbn [orb]. rewrite Hc. reflexivity.
    + symmetry. apply Nat.eqb_neq. intros H0.
      apply Hne, length_zero_iff_nil, H0.
Qed.

Lemma X4_witness : fst (decrypt key1 token1 w0) = Ok secret.
Proof.
  apply (proj2 (X4_decrypt_succeeds_iff key1 token1 secret w0)).
  split; [reflexivity|]. split; [reflexivity|].
  exists (js "KRhtJNffGHOSkWPVr29qm8VayJnXYgwyhg2ch+0LpOQ="), (Utf8.encode secret).
  split; [reflexivity|]. split; [vm_compute; discriminate|].
  split; [reflexivity|]. split; vm_compute; reflexivity.
Defined.

(** X6. For a key of ASCII characters the start-up check is the check the
    cipher needs: the key passes exactly when it has 32 bytes, and once it
    has passed no [encrypt] fails. *)
Theorem X6_ascii_key (key : jsstring) :
  Forall (fun c => (c < 0x80)%N) key ->
  (module_init (Some key) = Ok key <-> length (Utf8.encode key) = 32%nat)
  /\ (module_init (Some key) = Ok key ->
      forall (s : jsstring) (w : entropy), is_ok (fst (encrypt key s w)) = true).
Proof.
  intros Hascii. pose proof (utf8_length_ascii key Hascii) as L.
  assert (E : module_init (Some key) = Ok key <-> length (Utf8.encode key) = 32%nat).
  { rewrite module_init_ok_iff, L. split; [intros [_ H]; exact H | auto]. }
  split; [exact E|]. intros H s w. apply E in H.
  rewrite encrypt_spec by exact H. reflexivity.
Qed.

Lemma X6_witness :
  (module_init (Some key1) = Ok key1 <-> length (Utf8.encode key1) = 32%nat)
  /\ (module_init (Some key1) = Ok key1 ->
      forall (s : jsstring) (w : entropy), is_ok (fst (encrypt key1 s w)) = true).
Proof.
  apply (X6_ascii_key key1). repeat constructor.
Defined.

Lemma unpad_after_block (x r : buffer) :
  length x = 16%nat -> (16 <= length r)%nat ->
  Cbc.unpad (x ++ r) =
  match Evp.unpad_block (skipn (length r - 16) r) with
  | Some t => Some (x ++ firstn (length r - 16) r ++ t)
  | None => None
  end.
Proof.
  intros Hx Hr. unfold Cbc.unpad. rewrite length_app.
  replace (length x + length r - 16)%nat with (length x + (length r - 16))%nat
    by lia.
  rewrite skipn_app, firstn_app.
  rewrite (skipn_all2 x) by lia. rewrite (firstn_all2 x) by lia.
  replace (length x + (length r - 16) - length x)%nat with (length r - 16)%nat
    by lia.
  cbn [app]. destruct (Evp.unpad_block _); [|reflexivity].
  rewrite <- app_assoc. reflexivity.
Qed.

(** Swapping the first block of a padded message for another block keeps
    the padding, and the rest of the message. *)
Lemma unpad_swap_first_block (x y r m : buffer) :
  length x = 16%nat -> length y = 16%nat -> (16 <= length r)%nat ->
  Cbc.unpad (y ++ r) = Some m ->
  Cbc.unpad (x ++ r) = Some (x ++ skipn 16 m).
Proof.
  intros Hx Hy Hr.
  rewrite (unpad_after_block x r Hx Hr), (unpad_after_block y r Hy Hr).
  destruct (Evp.unpad_block _) as [t|]; [|discriminate].
  intros E. injection E as <-.
  rewrite skipn_app. rewrite (skipn_all2 y) by lia.
  rewrite Hy, Nat.sub_diag. reflexivity.
Qed.

(** X5. The IV of a token is not protected. Take a token made under a key
    of 32 bytes from a plaintext of at least 16 bytes and put any other
    16 bytes in place of its IV: [decrypt] succeeds, and returns the
    plaintext with its first 16 bytes xor-ed with the difference of the
    two IVs. *)
Theorem X5_iv_is_malleable (key s : jsstring) (w w' : entropy) (iv' : buffer) :
  length (Utf8.encode key) = 32%nat ->
  (16 <= length (Utf8.encode s))%nat ->
  length iv' = 16%nat ->
  let iv := drawn_iv w in
  let m := Utf8.encode s in
  let ct := Cbc.encrypt (Utf8.encode key) iv m in
  fst (encrypt key s w) = Ok (Base64.encode iv ++ [colon] ++ Base64.encode ct)
  /\ fst (decrypt key (Base64.encode iv' ++ [colon] ++ Base64.encode ct) w')
     = Ok (Utf8.decode
             (AES.xor_bytes (AES.xor_bytes (firstn 16 m) iv) iv' ++ skipn 16 m)).
Proof.
  intros Hkey Hm Hiv' iv m ct. change (16 <= length m)%nat in Hm.
  split; [rewrite encrypt_spec by exact Hkey; reflexivity|].
  rewrite decrypt_token. cbn [fst].
  rewrite (decrypt_parts_whole _ _ _ (length m / 16) Hkey Hiv')
    by (unfold ct; rewrite length_cbc_encrypt; fold m; lia).
  assert (Hiv : length iv = 16%nat) by apply length_drawn_iv.
  set (rks := AES.key_expansion (Utf8.encode key)).
  set (p1 := firstn 16 m).
  set (r := skipn 16 (Cbc.pad m)).
  assert (Hp1 : length p1 = 16%nat) by (unfold p1; rewrite length_firstn; lia).
  assert (Hpad : Cbc.pad m = p1 ++ r).
  { unfold p1, r. rewrite <- (firstn_skipn 16 (Cbc.pad m)) at 1. f_equal.
    unfold Cbc.pad. rewrite firstn_app.
    replace (16 - length m)%nat with 0%nat by lia.
    cbn [firstn]. apply app_nil_r. }
  assert (Hr : length r = (16 * (length m / 16))%nat).
  { unfold r. rewrite length_skipn, length_pad. lia. }
  assert (Hr16 : (16 <= length r)%nat).
  { rewrite Hr. pose proof (Nat.div_mod_eq (length m) 16).
    pose proof (Nat.mod_upper_bound (length m) 16). lia. }
  set (c1 := AES.encrypt_block rks (AES.xor_bytes p1 iv)).
  assert (Hc1 : length c1 = 16%nat).
  { unfold c1. apply length_encrypt_block. rewrite length_xor_bytes. exact Hp1. }
  assert (Ect : ct = c1 ++ fst (Evp.cbc_encrypt_blocks rks c1 (chunks 16 r))).
  { unfold ct, Cbc.encrypt. fold rks. rewrite Hpad.
    rewrite chunks_app_block by (lia || exact Hp1).
    cbn [Evp.cbc_encrypt_blocks]. fold c1.
    destruct (Evp.cbc_encrypt_blocks rks c1 (chunks 16 r)). reflexivity. }
  assert (Hcr : length (fst (Evp.cbc_encrypt_blocks rks c1 (chunks 16 r)))
                = (16 * (length m / 16))%nat).
  { rewrite (length_cbc_encrypt_blocks rks (length m / 16) r Hr). exact Hr. }
  assert (Edec : fst (Evp.cbc_decrypt_blocks rks iv' (chunks 16 ct))
                 = AES.xor_bytes (AES.xor_bytes p1 iv) iv' ++ r).
  { rewrite Ect. rewrite chunks_app_block by (lia || exact Hc1).
    cbn [Evp.cbc_decrypt_blocks].
    pose proof (cbc_decrypt_encrypt_blocks rks (length m / 16) r Hr c1 Hc1) as D.
    destruct (Evp.cbc_decrypt_blocks rks c1 _) as [o iv2]. cbn [fst] in *.
    subst o. unfold c1.
    rewrite decrypt_block_encrypt_block by (rewrite length_xor_bytes; exact Hp1).
    reflexivity. }
  unfold Cbc.decrypt. fold rks. rewrite Edec.
  rewrite (unpad_swap_first_block _ p1 r m).
  - reflexivity.
  - rewrite !length_xor_bytes. exact Hp1.
  - exact Hp1.
  - exact Hr16.
  - rewrite <- Hpad. apply unpad_pad.
Qed.

Lemma X5_witness :
  fst (decrypt key1
         (Base64.encode (repeat x00 16) ++ [colon]
            ++ Base64.encode (Cbc.encrypt (Utf8.encode key1) (drawn_iv w0)
                                (Utf8.encode long_secret))) w0)
  = Ok (Utf8.decode
          (AES.xor_bytes
             (AES.xor_bytes (firstn 16 (Utf8.encode long_secret)) (drawn_iv w0))
             (repeat x00 16)
           ++ skipn 16 (Utf8.encode long_secret))).
Proof.
  apply (proj2 (X5_iv_is_malleable key1 long_secret w0 w0 (repeat x00 16)
                  eq_refl ltac:(vm_compute; lia) eq_refl)).
Defined.

(** X7. Under a key of 32 bytes two well-formed plaintexts that differ
    never get the same token, whatever IVs are drawn. *)
Theorem X7_tokens_tell_plaintexts_apart (key s1 s2 : jsstring) (w1 w2 : entropy) :
  length (Utf8.encode key) = 32%nat ->
  Utf8.isWellFormed s1 = true -> Utf8.isWellFormed s2 = true ->
  s1 <> s2 ->
  fst (encrypt key s1 w1) <> fst (encrypt key s2 w2).
Proof.
  intros Hkey H1 H2 Hne E. apply Hne.
  rewrite !encrypt_spec in E by exact Hkey. cbn [fst] in E.
  pose proof (decrypt_fresh_token key s1 w1 w1 Hkey H1) as D1.
  pose proof (decrypt_fresh_token key s2 w2 w1 Hkey H2) as D2.
  assert (T : Base64.encode (drawn_iv w1) ++ [colon]
                ++ Base64.encode (Cbc.encrypt (Utf8.encode key) (drawn_iv w1)
                                    (Utf8.encode s1))
              = Base64.encode (drawn_iv w2) ++ [colon]
                ++ Base64.encode (Cbc.encrypt (Utf8.encode key) (drawn_iv w2)
                                    (Utf8.encode s2))) by congruence.
  rewrite T in D1. congruence.
Qed.

Lemma X7_witness :
  fst (encrypt key1 secret w0) <> fst (encrypt key1 long_secret w0).
Proof.
  apply (X7_tokens_tell_plaintexts_apart key1 secret long_secret w0 w0);
    [reflexivity | reflexivity | reflexivity | discriminate].
Defined.

End MoreHelperFacts.

(** * The routes *)

Section RouteFacts.
Import CryptoHelpers Routes.

Lemma helper_encrypt_string (key s : jsstring) (st : world) :
  length (Utf8.encode key) = 32%nat ->
  helper (encrypt_value key (JString s)) st
  = (Value (token_of key s (rng st)), World (advance 16 (rng st)) (log st)).
Proof.
  intros Hkey. unfold helper, encrypt_value.
  rewrite encrypt_spec by exact Hkey. reflexivity.
Qed.

Lemma helper_encrypt_bad_key (key : jsstring) (v : jsvalue) (st : world) :
  length (Utf8.encode key) <> 32%nat ->
  helper (encrypt_value key v) st
  = (Raise (CipherError ERR_CRYPTO_INVALID_KEYLEN),
     World (advance 16 (rng st)) (log st)).
Proof.
  intros Hkey. unfold helper.
  assert (E : forall w, encrypt_value key v w
                        = (Throw ERR_CRYPTO_INVALID_KEYLEN, advance 16 w)).
  { intros w. destruct v; cbn [encrypt_value];
      try (apply encrypt_bad_key; exact Hkey);
      unfold bind, randomBytes, lift, Buffer.from,
        Crypto.createCipheriv, Crypto.check_key_iv;
      change (String.eqb ALGORITHM "aes-256-cbc") with true;
      rewrite length_map, length_seq; cbn [Nat.eqb negb];
      rewrite (proj2 (Nat.eqb_neq _ _) Hkey); reflexivity. }
  rewrite E. reflexivity.
Qed.

Lemma helper_encrypt_not_string (key : jsstring) (v : jsvalue) (st : world) :
  length (Utf8.encode key) = 32%nat ->
  (forall s, v <> JString s) ->
  helper (encrypt_value key v) st
  = (Raise (CipherError ERR_INVALID_ARG_TYPE),
     World (advance 16 (rng st)) (log st)).
Proof.
  intros Hkey Hv. unfold helper.
  assert (E : forall w, encrypt_value key v w
                        = (Throw ERR_INVALID_ARG_TYPE, advance 16 w)).
  { intros w. destruct v as [|s|t]; [|destruct (Hv s eq_refl)|];
      cbn [encrypt_value];
      unfold bind, randomBytes, lift, Buffer.from,
        Crypto.createCipheriv, Crypto.check_key_iv;
      change (String.eqb ALGORITHM "aes-256-cbc") with true;
      rewrite length_map, length_seq, Hkey; reflexivity. }
  rewrite E. reflexivity.
Qed.

(** X8. [POST /api/credentials] with one of its five fields missing or
    falsy (an empty string, [null], [0], [false]) is answered 400, and
    nothing has happened: no random byte drawn, no call to the store. *)
Theorem X8_credentials_required (ext : externals) (key : jsstring)
    (b : credentials_body) (st : world) :
  truthy (ownerUserId b) && truthy (apiKey b) && truthy (apiSecret b)
    && truthy (accessToken b) && truthy (accessSecret b) = false ->
  post_credentials ext key (Some b) st
  = (Value (Response 400 (ErrorBody "All credentials are required.")), st).
Proof.
  intros H. unfold post_credentials, try_catch.
  replace (negb (truthy (ownerUserId b)) || negb (truthy (apiKey b))
           || negb (truthy (apiSecret b)) || negb (truthy (accessToken b))
           || negb (truthy (accessSecret b))) with true; [reflexivity|].
  destruct (truthy (ownerUserId b)), (truthy (apiKey b)), (truthy (apiSecret b)),
    (truthy (accessToken b)), (truthy (accessSecret b));
    try reflexivity; discriminate H.
Qed.

Lemma X8_witness :
  post_credentials calm key1
    (Some (CredentialsBody (JString (js "user-1")) (JString (js "k"))
             (JString []) JNullish (JOther false)))
    (World w0 [])
  = (Value (Response 400 (ErrorBody "All credentials are required.")),
     World w0 []).
Proof. apply X8_credentials_required. reflexivity. Defined.

Lemma truthy_string (s : jsstring) : s <> [] -> truthy (JString s) = true.
Proof. destruct s; [congruence | reflexivity]. Qed.

Lemma post_credentials_run (ext : externals) (key : jsstring)
    (owner : jsvalue) (k1 k2 k3 k4 : jsstring) (st : world) :
  length (Utf8.encode key) = 32%nat ->
  truthy owner = true ->
  k1 <> [] -> k2 <> [] -> k3 <> [] -> k4 <> [] ->
  let w := rng st in
  let row :=
    Row owner (JString (token_of key k1 w))
      (JString (token_of key k2 (advance 16 w)))
      (JString (token_of key k3 (advance 32 w)))
      (JString (token_of key k4 (advance 48 w))) in
  post_credentials ext key
    (Some (CredentialsBody owner (JString k1) (JString k2) (JString k3)
             (JString k4))) st
  = (Value
       match supabase_insert ext (log st) row with
       | Failed _ => Response 500 (ErrorBody "Failed to store credentials")
       | Resolved reply =>
           match db_error reply, db_data reply with
           | Some _, _ =>
               Response 500 (ErrorBody "Failed to store credentials in Supabase")
           | None, None => Response 500 (ErrorBody "Failed to store credentials")
           | None, Some data => Response 200 (StoredBody (hd_error data))
           end
       end,
     World (advance 64 w) (log st ++ [SupabaseInsert row])).
Proof.
  intros Hkey Ho H1 H2 H3 H4 w row.
  unfold post_credentials, try_catch.
  cbn [ownerUserId apiKey apiSecret accessToken accessSecret].
  rewrite Ho, !truthy_string by assumption. cbn [negb orb].
  unfold hbind at 1. rewrite helper_encrypt_string by exact Hkey.
  unfold hbind at 1. rewrite helper_encrypt_string by exact Hkey.
  unfold hbind at 1. rewrite helper_encrypt_string by exact Hkey.
  unfold hbind at 1. rewrite helper_encrypt_string by exact Hkey.
  cbn [rng log]. fold w.
  change (advance 16 (advance 16 w)) with (advance 32 w).
  change (advance 16 (advance 32 w)) with (advance 48 w).
  change (advance 16 (advance 48 w)) with (advance 64 w).
  fold row. unfold hbind, external. cbn [rng log].
  destruct (supabase_insert ext (log st) row) as [reply|msg]; [|reflexivity].
  destruct (db_error reply); [reflexivity|].
  destruct (db_data reply); reflexivity.
Qed.

(** X9. [POST /api/credentials] with a truthy owner and four non-empty
    string credentials, under a key of 32 bytes: 64 random bytes are
    drawn, and the one call made is the insert of a row that holds the
    owner as given and, for the four credentials, the tokens made with the
    four IVs drawn in turn. The answer follows the store: 500 if the
    call fails or reports an error or no data, 200 with the first row
    returned otherwise. Each token of a well-formed credential decrypts
    to it. *)
Theorem X9_credentials_stored (ext : externals) (key : jsstring)
    (owner : jsvalue) (k1 k2 k3 k4 : jsstring) (st : world) :
  length (Utf8.encode key) = 32%nat ->
  truthy owner = true ->
  k1 <> [] -> k2 <> [] -> k3 <> [] -> k4 <> [] ->
  let w := rng st in
  let row :=
    Row owner (JString (token_of key k1 w))
      (JString (token_of key k2 (advance 16 w)))
      (JString (token_of key k3 (advance 32 w)))
      (JString (token_of key k4 (advance 48 w))) in
  post_credentials ext key
    (Some (CredentialsBody owner (JString k1) (JString k2) (JString k3)
             (JString k4))) st
  = (Value
       match supabase_insert ext (log st) row with
       | Failed _ => Response 500 (ErrorBody "Failed to store credentials")
       | Resolved reply =>
           match db_error reply, db_data reply with
           | Some _, _ =>
               Response 500 (ErrorBody "Failed to store credentials in Supabase")
           | None, None => Response 500 (ErrorBody "Failed to store credentials")
           | None, Some data => Response 200 (StoredBody (hd_error data))
           end
       end,
     World (advance 64 w) (log st ++ [SupabaseInsert row]))
  /\ (forall (k : jsstring) (w1 w2 : entropy),
        Utf8.isWellFormed k = true ->
        decrypt key (token_of key k w1) w2 = (Ok k, w2)).
Proof.
  intros Hkey Ho H1 H2 H3 H4 w row. split.
  - apply post_credentials_run; assumption.
  - intros k w1 w2 Hk. apply decrypt_fresh_token; assumption.
Qed.

Lemma X9_witness :
  fst (post_credentials calm key1
         (Some (CredentialsBody (JString (js "user-1")) (JString secret)
                  (JString long_secret) (JString accented) (JString (js "x"))))
         (World w0 []))
  = Value (Response 200 (StoredBody (Some sample_row))).
Proof.
  rewrite (proj1 (X9_credentials_stored calm key1 (JString (js "user-1"))
                    secret long_secret accented (js "x") (World w0 [])
                    eq_refl eq_refl
                    ltac:(discriminate) ltac:(discriminate)
                    ltac:(discriminate) ltac:(discriminate))).
  reflexivity.
Defined.


(** X10. [POST /api/credentials] with five truthy fields never reaches the
    store when the key does not have 32 bytes or when one of the four
    credentials is not a string: the failure of [encrypt] is caught and
    answered 500. *)
Theorem X10_credentials_not_stored (ext : externals) (key : jsstring)
    (b : credentials_body) (st : world) :
  truthy (ownerUserId b) && truthy (apiKey b) && truthy (apiSecret b)
    && truthy (accessToken b) && truthy (accessSecret b) = true ->
  length (Utf8.encode key) <> 32%nat
  \/ (forall s, apiKey b <> JString s) \/ (forall s, apiSecret b <> JString s)
  \/ (forall s, accessToken b <> JString s)
  \/ (forall s, accessSecret b <> JString s) ->
  fst (post_credentials ext key (Some b) st)
  = Value (Response 500 (ErrorBody "Failed to store credentials"))
  /\ log (snd (post_credentials ext key (Some b) st)) = log st.
Proof.
  intros Ht Hbad.
  assert (G : exists w' : entropy,
            post_credentials ext key (Some b) st
            = (Value (Response 500 (ErrorBody "Failed to store credentials")),
               World w' (log st))).
  { unfold post_credentials, try_catch.
    repeat (apply andb_prop in Ht; destruct Ht as [Ht ?]).
    repeat match goal with E : truthy _ = true |- _ => rewrite E; clear E end.
    cbn [negb orb].
    destruct (Nat.eq_dec (length (Utf8.encode key)) 32) as [Hk | Hk].
    - destruct Hbad as [Hbad | Hbad]; [contradiction|].
      destruct (apiKey b) as [|s1|t1];
        try (unfold hbind at 1;
             rewrite helper_encrypt_not_string by (exact Hk || discriminate);
             eexists; reflexivity).
      unfold hbind at 1. rewrite helper_encrypt_string by exact Hk.
      destruct (apiSecret b) as [|s2|t2];
        try (unfold hbind at 1;
             rewrite helper_encrypt_not_string by (exact Hk || discriminate);
             eexists; reflexivity).
      unfold hbind at 1. rewrite helper_encrypt_string by exact Hk.
      destruct (accessToken b) as [|s3|t3];
        try (unfold hbind at 1;
             rewrite helper_encrypt_not_string by (exact Hk || discriminate);
             eexists; reflexivity).
      unfold hbind at 1. rewrite helper_encrypt_string by exact Hk.
      destruct (accessSecret b) as [|s4|t4];
        try (unfold hbind at 1;
             rewrite helper_encrypt_not_string by (exact Hk || discriminate);
             eexists; reflexivity).
      exfalso. destruct Hbad as [Hb | [Hb | [Hb | Hb]]]; eapply Hb; reflexivity.
    - unfold hbind at 1. rewrite helper_encrypt_bad_key by exact Hk.
      eexists. reflexivity. }
  destruct G as [w' G]. rewrite G. split; reflexivity.
Qed.

Lemma X10_witness :
  fst (post_credentials calm key_accent
         (Some (CredentialsBody (JString (js "user-1")) (JString secret)
                  (JString secret) (JString secret) (JString secret)))
         (World w0 []))
  = Value (Response 500 (ErrorBody "Failed to store credentials"))
  /\ fst (post_credentials calm key1
            (Some (CredentialsBody (JString (js "user-1")) (JString secret)
                     (JOther true) (JString secret) (JString secret)))
            (World w0 []))
     = Value (Response 500 (ErrorBody "Failed to store credentials")).
Proof.
  split.
  - apply (proj1 (X10_credentials_not_stored calm key_accent
                    (CredentialsBody (JString (js "user-1")) (JString secret)
                       (JString secret) (JString secret) (JString secret))
                    (World w0 [])
                    eq_refl ltac:(left; vm_compute; discriminate))).
  - apply (proj1 (X10_credentials_not_stored calm key1
                    (CredentialsBody (JString (js "user-1")) (JString secret)
                       (JOther true) (JString secret) (JString secret))
                    (World w0 [])
                    eq_refl ltac:(right; right; left; discriminate))).
Defined.

Lemma helper_decrypt (key payload : jsstring) (st : world) :
  helper (decrypt key payload) st
  = (match fst (decrypt key payload w0) with
     | Ok s => Value s
     | Throw e => Raise (CipherError e)
     end, st).
Proof.
  unfold helper. rewrite !decrypt_spec. cbn [fst]. destruct st as [w l].
  cbn [rng log]. destruct (decrypt_parts _ _ _); reflexivity.
Qed.

Lemma decrypt_value_failure (key : jsstring) (v : jsvalue) (e : exn) (st : world) :
  decrypt_failure key v = Some e -> decrypt_value key v st = (Raise e, st).
Proof.
  destruct v as [|payload|t]; cbn [decrypt_value decrypt_failure].
  - intros E. injection E as <-. reflexivity.
  - rewrite helper_decrypt.
    destruct (fst (decrypt key payload w0)) as [s|e']; [discriminate|].
    intros E. injection E as <-. reflexivity.
  - intros E. injection E as <-. reflexivity.
Qed.

Lemma decrypt_value_no_failure (key : jsstring) (v : jsvalue) (st : world) :
  decrypt_failure key v = None ->
  exists s : jsstring, decrypt_value key v st = (Value s, st).
Proof.
  destruct v as [|payload|t]; cbn [decrypt_value decrypt_failure];
    try discriminate.
  rewrite helper_decrypt.
  destruct (fst (decrypt key payload w0)) as [s|e']; [|discriminate].
  intros _. exists s. reflexivity.
Qed.

(** X11. [POST /api/tweet/:accountId], when the row is found but one of its
    four stored values does not decrypt: the answer is 500 and carries the
    error of the first value that fails, in the order key, secret, access
    token, access secret; that error is a type error when the value is no
    string and what [decrypt] throws on it otherwise. The only
    external call made is the select: nothing is sent to Twitter and no
    uploaded file is removed. *)
Theorem X11_tweet_undecryptable (ext : externals) (key : jsstring)
    (req : tweet_request) (b : tweet_body) (files : uploaded_files)
    (account : account_row) (e : exn) (st : world) :
  req_body req = Some b -> req_files req = Some files ->
  truthy (text b) = true ->
  supabase_select_single ext (log st) (accountId req)
  = Resolved (Reply (Some account) None) ->
  first_failure key account = Some e ->
  post_tweet ext key req st
  = (Value (Response 500 (ErrorDetails "Failed to post tweet" e)),
     World (rng st) (log st ++ [SupabaseSelectSingle (accountId req)])).
Proof.
  intros Hb Hf Ht Hsel Hfail. unfold post_tweet, try_catch.
  rewrite Hb, Hf, Ht. cbn [negb].
  unfold hbind at 1. unfold external at 1. rewrite Hsel. cbn [db_error db_data].
  set (st1 := World (rng st) (log st ++ [SupabaseSelectSingle (accountId req)])).
  unfold first_failure in Hfail.
  destruct (decrypt_failure key (twitter_api_key account)) as [e1|] eqn:F1.
  { injection Hfail as <-. unfold hbind at 1.
    rewrite (decrypt_value_failure key _ e1 st1 F1). reflexivity. }
  destruct (decrypt_value_no_failure key _ st1 F1) as [s1 E1].
  unfold hbind at 1. rewrite E1.
  destruct (decrypt_failure key (twitter_api_secret account)) as [e2|] eqn:F2.
  { injection Hfail as <-. unfold hbind at 1.
    rewrite (decrypt_value_failure key _ e2 st1 F2). reflexivity. }
  destruct (decrypt_value_no_failure key _ st1 F2) as [s2 E2].
  unfold hbind at 1. rewrite E2.
  destruct (decrypt_failure key (twitter_access_token account)) as [e3|] eqn:F3.
  { injection Hfail as <-. unfold hbind at 1.
    rewrite (decrypt_value_failure key _ e3 st1 F3). reflexivity. }
  destruct (decrypt_value_no_failure key _ st1 F3) as [s3 E3].
  unfold hbind at 1. rewrite E3.
  unfold hbind at 1.
  rewrite (decrypt_value_failure key _ e st1 Hfail). reflexivity.
Qed.

Lemma X11_witness :
  post_tweet
    (outside (Some (Row (JString (js "user-1")) (JString token1_wide)
                      (JString token1_flipped) (JString (js "not-a-token"))
                      (JOther true))))
    key1
    (TweetRequest (js "42") (Some (TweetFields (JString (js "hello"))))
       (Some (Files None None)))
    (World w0 [])
  = (Value (Response 500
              (ErrorDetails "Failed to post tweet"
                 (CipherError ERR_CRYPTO_INVALID_IV))),
     World w0 ([] ++ [SupabaseSelectSingle (js "42")]))
  /\ post_tweet
       (outside (Some (Row (JString (js "user-1")) (JString token1)
                         (JOther true) (JString (js "not-a-token"))
                         (JString token1_stray))))
       key1
       (TweetRequest (js "42") (Some (TweetFields (JString (js "hello"))))
          (Some (Files None None)))
       (World w0 [])
     = (Value (Response 500 (ErrorDetails "Failed to post tweet" TypeError)),
        World w0 ([] ++ [SupabaseSelectSingle (js "42")])).
Proof.
  split.
  - apply (X11_tweet_undecryptable
             (outside (Some (Row (JString (js "user-1")) (JString token1_wide)
                               (JString token1_flipped)
                               (JString (js "not-a-token")) (JOther true))))
             key1
             (TweetRequest (js "42") (Some (TweetFields (JString (js "hello"))))
                (Some (Files None None)))
             (TweetFields (JString (js "hello"))) (Files None None)
             (Row (JString (js "user-1")) (JString token1_wide)
                (JString token1_flipped) (JString (js "not-a-token"))
                (JOther true))
             (CipherError ERR_CRYPTO_INVALID_IV) (World w0 []));
      reflexivity.
  - apply (X11_tweet_undecryptable
             (outside (Some (Row (JString (js "user-1")) (JString token1)
                               (JOther true) (JString (js "not-a-token"))
                               (JString token1_stray))))
             key1
             (TweetRequest (js "42") (Some (TweetFields (JString (js "hello"))))
                (Some (Files None None)))
             (TweetFields (JString (js "hello"))) (Files None None)
             (Row (JString (js "user-1")) (JString token1)
                (JOther true) (JString (js "not-a-token"))
                (JString token1_stray))
             TypeError (World w0 []));
      reflexivity.
Defined.

Lemma decrypt_value_token (key k : jsstring) (w : entropy) (st : world) :
  length (Utf8.encode key) = 32%nat -> Utf8.isWellFormed k = true ->
  decrypt_value key (JString (token_of key k w)) st = (Value k, st).
Proof.
  intros Hkey Hk. cbn [decrypt_value]. rewrite helper_decrypt.
  unfold token_of. rewrite decrypt_fresh_token by assumption. reflexivity.
Qed.






(** Whatever the outside does, the loop only adds calls made as [client]. *)
Lemma upload_images_log (ext : externals) (client : TwitterApi.client) :
  forall (fs acc : list jsstring) (st : world),
  exists (l : list call) (r : hres (list jsstring)),
    upload_images ext client fs acc st = (r, World (rng st) (log st ++ l))
    /\ Forall (with_client client) l.
Proof.
  induction fs as [|f fs IH]; intros acc st.
  - exists [], (Value acc). split; [|constructor].
    cbn [upload_images]. rewrite app_nil_r. destruct st. reflexivity.
  - cbn [upload_images]. unfold hbind at 1, external at 1.
    destruct (uploadMedia ext (log st) client f None) as [id|msg].
    + unfold hbind at 1, external at 1. cbn [rng log].
      destruct (unlinkSync ext _ f) as [[]|msg].
      * destruct (IH (acc ++ [id])
                    (World (rng st) ((log st ++ [UploadMedia client f None])
                                       ++ [UnlinkSync f]))) as (l & r & E & F).
        rewrite E. cbn [rng log].
        exists (UploadMedia client f None :: UnlinkSync f :: l), r.
        split; [rewrite <- !app_assoc; reflexivity|].
        constructor; [right; reflexivity|]. constructor; [left; reflexivity|].
        exact F.
      * eexists [UploadMedia client f None; UnlinkSync f], _.
        split; [rewrite <- !app_assoc; reflexivity|].
        constructor; [right; reflexivity|]. constructor; [left; reflexivity|].
        constructor.
    + eexists [UploadMedia client f None], _. split; [reflexivity|].
      constructor; [right; reflexivity | constructor].
Qed.

Lemma try_catch_state (A : Type) (m : H A) (f : exn -> A) (st : world) :
  snd (try_catch m (fun e => hret (f e)) st) = snd (m st).
Proof.
  unfold try_catch. destruct (m st) as [[a|e] st']; reflexivity.
Qed.

(** X13. What [POST /api/credentials] stores is what
    [POST /api/tweet/:accountId] uses. Let the first route store the row
    of four non-empty well-formed credentials under a key of 32 bytes, and
    let the select of the second route find that row. Then, whatever the
    outside does, every call the second route makes to Twitter is made
    with the four credentials as they were submitted; and with no media in
    the request the route makes one such call, the tweet, and answers 200
    with what it returns or 500 if it fails. *)
Theorem X13_stored_credentials_reach_twitter (ext1 ext2 : externals)
    (key : jsstring) (owner : jsvalue) (k1 k2 k3 k4 : jsstring)
    (st1 st2 : world) (row : account_row)
    (req : tweet_request) (b : tweet_body) (files : uploaded_files) :
  length (Utf8.encode key) = 32%nat ->
  truthy owner = true ->
  k1 <> [] -> k2 <> [] -> k3 <> [] -> k4 <> [] ->
  Utf8.isWellFormed k1 = true -> Utf8.isWellFormed k2 = true ->
  Utf8.isWellFormed k3 = true -> Utf8.isWellFormed k4 = true ->
  log (snd (post_credentials ext1 key
              (Some (CredentialsBody owner (JString k1) (JString k2)
                       (JString k3) (JString k4))) st1))
  = log st1 ++ [SupabaseInsert row] ->
  req_body req = Some b -> req_files req = Some files ->
  truthy (text b) = true ->
  supabase_select_single ext2 (log st2) (accountId req)
  = Resolved (Reply (Some row) None) ->
  let client := TwitterApi.Client k1 k2 k3 k4 in
  let found := log st2 ++ [SupabaseSelectSingle (accountId req)] in
  (exists l : list call,
     snd (post_tweet ext2 key req st2) = World (rng st2) (found ++ l)
     /\ Forall (with_client client) l)
  /\ (images files = None -> video files = None ->
      post_tweet ext2 key req st2
      = (Value
           match tweet ext2 found client (text b) None with
           | Resolved t => Response 200 (TweetBody t)
           | Failed message =>
               Response 500
                 (ErrorDetails "Failed to post tweet" (ExternalError message))
           end,
         World (rng st2) (found ++ [Tweet client (text b) None]))).
Proof.
  intros Hkey Ho N1 N2 N3 N4 W1 W2 W3 W4 Hrow Hb Hf Ht Hsel client found.
  rewrite (post_credentials_run ext1 key owner k1 k2 k3 k4 st1 Hkey Ho N1 N2 N3 N4)
    in Hrow.
  cbn [snd log] in Hrow. apply app_inv_head in Hrow.
  injection Hrow as Hrow. subst row.
  split.
  - unfold post_tweet. rewrite try_catch_state. rewrite Hb, Hf, Ht. cbn [negb].
    unfold hbind at 1. unfold external at 1. rewrite Hsel.
    cbn [db_error db_data twitter_api_key twitter_api_secret
           twitter_access_token twitter_access_secret].
    fold found.
    unfold hbind at 1. rewrite decrypt_value_token by assumption.
    unfold hbind at 1. rewrite decrypt_value_token by assumption.
    unfold hbind at 1. rewrite decrypt_value_token by assumption.
    unfold hbind at 1. rewrite decrypt_value_token by assumption.
    fold client. unfold hbind at 1.
    assert (G : exists (l : list call) (r : hres (list jsstring)),
              match images files with
              | Some fs =>
                  if (0 <? length fs)%nat
                  then upload_images ext2 client fs []
                  else hret []
              | None => hret []
              end (World (rng st2) found)
              = (r, World (rng st2) (found ++ l))
              /\ Forall (with_client client) l).
    { destruct (images files) as [fs|].
      - destruct (0 <? length fs)%nat.
        + apply (upload_images_log ext2 client fs [] (World (rng st2) found)).
        + exists [], (Value []). rewrite app_nil_r. split; [reflexivity|constructor].
      - exists [], (Value []). rewrite app_nil_r. split; [reflexivity|constructor]. }
    destruct G as (l1 & r1 & E1 & F1). rewrite E1.
    destruct r1 as [ids|e]; [|exists l1; split; [reflexivity | exact F1]].
    assert (T : forall ids' l',
              Forall (with_client client) l' ->
              exists l : list call,
                snd (send_tweet ext2 client (text b) ids'
                       (World (rng st2) (found ++ l')))
                = World (rng st2) (found ++ l)
                /\ Forall (with_client client) l).
    { intros ids' l' F'. unfold send_tweet, hbind, external, hret.
      cbn [rng log].
      set (media := if (0 <? length ids')%nat then Some ids' else None).
      exists (l' ++ [Tweet client (text b) media]). split.
      - destruct (tweet ext2 _ _ _ _); cbn [snd]; rewrite <- app_assoc;
          reflexivity.
      - apply Forall_app. split; [exact F'|].
        constructor; [right; reflexivity | constructor]. }
    destruct (video files) as [[|v vs]|].
    + apply T. exact F1.
    + destruct (0 <? length ids)%nat.
      * exists l1. split; [reflexivity | exact F1].
      * unfold hbind at 1, external at 1. cbn [rng log].
        destruct (uploadMedia ext2 _ _ _ _) as [id|msg].
        -- unfold hbind at 1, external at 1. cbn [rng log].
           destruct (unlinkSync ext2 _ _) as [[]|msg].
           ++ rewrite <- !app_assoc. apply T.
              apply Forall_app. split; [exact F1|].
              constructor; [right; reflexivity|].
              constructor; [left; reflexivity | constructor].
           ++ eexists. split; [cbn [snd]; rewrite <- !app_assoc; reflexivity|].
              apply Forall_app. split; [exact F1|].
              constructor; [right; reflexivity|].
              constructor; [left; reflexivity | constructor].
        -- eexists. split; [cbn [snd]; rewrite <- !app_assoc; reflexivity|].
           apply Forall_app. split; [exact F1|].
           constructor; [right; reflexivity | constructor].
    + apply T. exact F1.
  - intros Hi Hv. unfold post_tweet, try_catch. rewrite Hb, Hf, Ht, Hi, Hv.
    cbn [negb].
    unfold hbind at 1. unfold external at 1. rewrite Hsel.
    cbn [db_error db_data twitter_api_key twitter_api_secret
           twitter_access_token twitter_access_secret].
    fold found.
    unfold hbind at 1. rewrite decrypt_value_token by assumption.
    unfold hbind at 1. rewrite decrypt_value_token by assumption.
    unfold hbind at 1. rewrite decrypt_value_token by assumption.
    unfold hbind at 1. rewrite decrypt_value_token by assumption.
    fold client. unfold hbind at 1, hret at 1.
    unfold send_tweet, hbind, external, hret. cbn [rng log length Nat.ltb Nat.leb].
    destruct (tweet ext2 found client (text b) None); reflexivity.
Qed.

Lemma X13_witness :
  post_tweet (outside (Some sample_row)) key1
    (TweetRequest (js "42") (Some (TweetFields (JString (js "hello"))))
       (Some (Files None None)))
    (World w0 [])
  = (Value (Response 200 (TweetBody (js "posted"))),
     World w0
       (([] ++ [SupabaseSelectSingle (js "42")])
          ++ [Tweet sample_client (JString (js "hello")) None])).
Proof.
  apply (proj2 (X13_stored_credentials_reach_twitter
                  calm (outside (Some sample_row)) key1 (JString (js "user-1"))
                  secret long_secret accented (js "x")
                  (World w0 []) (World w0 []) sample_row
                  (TweetRequest (js "42")
                     (Some (TweetFields (JString (js "hello"))))
                     (Some (Files None None)))
                  (TweetFields (JString (js "hello"))) (Files None None)
                  eq_refl eq_refl
                  ltac:(discriminate) ltac:(discriminate)
                  ltac:(discriminate) ltac:(discriminate)
                  eq_refl eq_refl eq_refl eq_refl
                  ltac:(vm_compute; reflexivity)
                  eq_refl eq_refl eq_refl eq_refl));
    reflexivity.
Defined.




End RouteFacts.
